(** * Theme resolver of the portfolio page (src/App.tsx)

    A shallow embedding of the theme-preference subsystem of [App]:
    the cookie helpers [getCookie] / [setCookie], the three [useEffect]
    bodies (initialization, apply, OS-change listener) and [toggleTheme],
    together with the part of the browser they talk to
    ([document.cookie], [localStorage], [classList], [matchMedia], [Date],
    [encodeURIComponent] / [decodeURIComponent]).

    Strings are JavaScript strings: finite sequences of UTF-16 code units.

    How the component is read:
    - React as in a production build: on a page load the component
      renders once with the [useState] defaults, the effects of that
      render run in the order of their declaration, each with the state
      of the render it belongs to, and the setter calls made meanwhile
      are applied together in the next render; an effect runs again
      only when one of its dependencies has changed.
    - A page load, a click and a change of the OS colour scheme each run
      to completion before the next one starts.
    - [document.cookie] shows the cookies of the page's origin on path
      "/"; cookies are written and read as RFC 6265 describes, the
      browser keeps the attributes of every write, and a session is
      shorter than the 365 days a theme cookie lives.
    - [localStorage] and cookies are available; a disabled store is not
      modelled.
    - [encodeURIComponent], [decodeURIComponent] and
      [Date.prototype.toUTCString] follow ECMA-262. *)

From Stdlib Require Import ZArith NArith Ascii String DecimalString.
From stdpp Require Import gmap list.

Local Open Scope N_scope.

(** ** JavaScript strings *)

Module JS.

Abbreviation jsstring := (list N).

(** An ASCII literal as a sequence of code units. *)
Definition lit (s : string) : jsstring :=
  List.map N_of_ascii (list_ascii_of_string s).

Inductive JsError := URIError.

Inductive result (A : Type) :=
| Ok (a : A)
| Raise (e : JsError).
Arguments Ok {A} a.
Arguments Raise {A} e.

Definition between (lo hi c : N) : bool := (lo <=? c) && (c <=? hi).

(** *** encodeURIComponent (ECMA-262, Encode with the uriUnescaped set) *)

(** uriUnescaped: ASCII letters, decimal digits and [-_.!~*'()]. *)
Definition uriUnescaped (c : N) : bool :=
  between 65 90 c || between 97 122 c || between 48 57 c
  || bool_decide (c ∈ lit "-_.!~*'()").

Definition hexDigit (d : N) : N := if d <? 10 then 48 + d else 55 + d.

(** "%XX" with upper-case hexadecimal digits. *)
Definition pctOctet (b : N) : jsstring :=
  [37; hexDigit (b / 16); hexDigit (b mod 16)].

Definition isLeadSurrogate (c : N) : bool := between 0xD800 0xDBFF c.
Definition isTrailSurrogate (c : N) : bool := between 0xDC00 0xDFFF c.

Definition surrogatePairToCodePoint (lead trail : N) : N :=
  (lead - 0xD800) * 0x400 + (trail - 0xDC00) + 0x10000.

Definition utf8Encode (cp : N) : list N :=
  if cp <? 0x80 then [cp]
  else if cp <? 0x800 then
    [N.lor 0xC0 (N.shiftr cp 6); N.lor 0x80 (N.land cp 0x3F)]
  else if cp <? 0x10000 then
    [N.lor 0xE0 (N.shiftr cp 12);
     N.lor 0x80 (N.land (N.shiftr cp 6) 0x3F);
     N.lor 0x80 (N.land cp 0x3F)]
  else
    [N.lor 0xF0 (N.shiftr cp 18);
     N.lor 0x80 (N.land (N.shiftr cp 12) 0x3F);
     N.lor 0x80 (N.land (N.shiftr cp 6) 0x3F);
     N.lor 0x80 (N.land cp 0x3F)].

Definition pctEncode (cp : N) : jsstring :=
  List.concat (List.map pctOctet (utf8Encode cp)).

Definition rmap {A B} (f : A -> B) (r : result A) : result B :=
  match r with Ok a => Ok (f a) | Raise e => Raise e end.

(** An unpaired surrogate raises URIError. *)
Fixpoint encodeURIComponent (s : jsstring) : result jsstring :=
  match s with
  | [] => Ok []
  | c :: t =>
    if uriUnescaped c then rmap (cons c) (encodeURIComponent t)
    else if isLeadSurrogate c then
      match t with
      | d :: t' =>
        if isTrailSurrogate d
        then rmap (app (pctEncode (surrogatePairToCodePoint c d)))
                  (encodeURIComponent t')
        else Raise URIError
      | [] => Raise URIError
      end
    else if isTrailSurrogate c then Raise URIError
    else rmap (app (pctEncode c)) (encodeURIComponent t)
  end.

(** *** decodeURIComponent (ECMA-262, Decode with an empty preserve set) *)

Definition hexValue (c : N) : option N :=
  if between 48 57 c then Some (c - 48)
  else if between 65 70 c then Some (c - 55)
  else if between 97 102 c then Some (c - 87)
  else None.

Definition parseHexOctet (h l : N) : option N :=
  match hexValue h, hexValue l with
  | Some a, Some b => Some (16 * a + b)
  | _, _ => None
  end.

(** Number of leading 1 bits of an octet. *)
Definition leadingOnes (b : N) : nat :=
  if b <? 0x80 then 0%nat
  else if b <? 0xC0 then 1%nat
  else if b <? 0xE0 then 2%nat
  else if b <? 0xF0 then 3%nat
  else if b <? 0xF8 then 4%nat
  else 5%nat.

(** Reads [n] further "%XX" escapes; [None] when the text runs out, a
    '%' is missing or the digits are not hexadecimal. *)
Fixpoint readOctets (n : nat) (s : jsstring) : option (list N * jsstring) :=
  match n with
  | O => Some ([], s)
  | S n' =>
    match s with
    | 37 :: h :: l :: rest =>
      match parseHexOctet h l with
      | Some b =>
        match readOctets n' rest with
        | Some (bs, rest') => Some (b :: bs, rest')
        | None => None
        end
      | None => None
      end
    | _ => None
    end
  end.

Definition isContinuation (b : N) : bool := between 0x80 0xBF b.

(** The code point of a well-formed UTF-8 sequence: continuation octets
    of the form 10xxxxxx, shortest form, no surrogate, at most U+10FFFF. *)
Definition utf8Decode (octets : list N) : option N :=
  match octets with
  | [b0; b1] =>
    let cp := N.lor (N.shiftl (N.land b0 0x1F) 6) (N.land b1 0x3F) in
    if isContinuation b1 && (0x80 <=? cp) then Some cp else None
  | [b0; b1; b2] =>
    let cp := N.lor (N.shiftl (N.land b0 0x0F) 12)
                (N.lor (N.shiftl (N.land b1 0x3F) 6) (N.land b2 0x3F)) in
    if isContinuation b1 && isContinuation b2 && (0x800 <=? cp)
       && negb (between 0xD800 0xDFFF cp)
    then Some cp else None
  | [b0; b1; b2; b3] =>
    let cp := N.lor (N.shiftl (N.land b0 0x07) 18)
                (N.lor (N.shiftl (N.land b1 0x3F) 12)
                   (N.lor (N.shiftl (N.land b2 0x3F) 6) (N.land b3 0x3F))) in
    if isContinuation b1 && isContinuation b2 && isContinuation b3
       && (0x10000 <=? cp) && (cp <=? 0x10FFFF)
    then Some cp else None
  | _ => None
  end.

Definition utf16Encode (cp : N) : jsstring :=
  if cp <=? 0xFFFF then [cp]
  else [0xD800 + N.shiftr (cp - 0x10000) 10;
        0xDC00 + N.land (cp - 0x10000) 0x3FF].

(** One escape or one plain code unit per step; [fuel] bounds the number
    of steps and [length s] always suffices ([decode_fuel_enough]). *)
Fixpoint decode (fuel : nat) (s : jsstring) : result jsstring :=
  match s with
  | [] => Ok []
  | c :: t =>
    match fuel with
    | O => Raise URIError
    | S fuel' =>
      if c =? 37 then
        match t with
        | h :: l :: rest =>
          match parseHexOctet h l with
          | None => Raise URIError
          | Some b =>
            match leadingOnes b with
            | 0%nat => rmap (cons b) (decode fuel' rest)
            | 1%nat => Raise URIError
            | S (S (S (S (S _)))) => Raise URIError
            | S n' =>
              match readOctets n' rest with
              | None => Raise URIError
              | Some (bs, rest') =>
                match utf8Decode (b :: bs) with
                | None => Raise URIError
                | Some cp => rmap (app (utf16Encode cp)) (decode fuel' rest')
                end
              end
            end
          end
        | _ => Raise URIError
        end
      else rmap (cons c) (decode fuel' t)
    end
  end.

Definition decodeURIComponent (s : jsstring) : result jsstring :=
  decode (length s) s.

End JS.

Import JS.

(** ** The browser *)

Module Browser.

(** [cookies]: the cookies of the page's origin that are visible on path
    "/", oldest first, as (name, value) pairs.  [now]: the clock, in
    milliseconds since the epoch.  [prefersDark]: the current result of
    the media query (prefers-color-scheme: dark).  [classList]: the class
    tokens of the root element.  [attributes]: for a cookie written since
    the browser state was taken, the attributes of its last write, as
    (name, value) pairs in the order they were given. *)
Record World := mkWorld {
  cookies : list (jsstring * jsstring);
  localStorage : gmap jsstring jsstring;
  classList : gset jsstring;
  now : Z;
  prefersDark : bool;
  attributes : gmap jsstring (list (jsstring * jsstring))
}.

Definition with_cookies (j : list (jsstring * jsstring)) (w : World) : World :=
  mkWorld j (localStorage w) (classList w) (now w) (prefersDark w)
          (attributes w).
Definition with_localStorage (m : gmap jsstring jsstring) (w : World) : World :=
  mkWorld (cookies w) m (classList w) (now w) (prefersDark w) (attributes w).
Definition with_classList (c : gset jsstring) (w : World) : World :=
  mkWorld (cookies w) (localStorage w) c (now w) (prefersDark w)
          (attributes w).
Definition with_prefersDark (b : bool) (w : World) : World :=
  mkWorld (cookies w) (localStorage w) (classList w) (now w) b (attributes w).
Definition with_attributes (m : gmap jsstring (list (jsstring * jsstring)))
    (w : World) : World :=
  mkWorld (cookies w) (localStorage w) (classList w) (now w) (prefersDark w) m.

(** Computations that read and write the browser and may throw. *)
Inductive outcome (A : Type) :=
| Return (a : A) (w : World)
| Throw (e : JsError) (w : World).
Arguments Return {A} a w.
Arguments Throw {A} e w.

Definition M (A : Type) : Type := World -> outcome A.

Definition ret {A} (a : A) : M A := fun w => Return a w.
Definition bind {A B} (m : M A) (k : A -> M B) : M B :=
  fun w => match m w with
           | Return a w' => k a w'
           | Throw e w' => Throw e w'
           end.
Definition throw {A} (e : JsError) : M A := fun w => Throw e w.
Definition lift {A} (r : result A) : M A :=
  match r with Ok a => ret a | Raise e => throw e end.
Definition gets {A} (f : World -> A) : M A := fun w => Return (f w) w.
Definition modify (f : World -> World) : M unit := fun w => Return tt (f w).

Notation "'let*' x := m 'in' k" := (bind m (fun x => k))
  (at level 10, x name, m at level 100, k at level 200).
Notation "m >> k" := (bind m (fun _ => k))
  (at level 100, k at level 200, right associativity).

(** *** Date *)

Definition msPerDay : Z := 86400000.

(** Proleptic Gregorian (year, month 1..12, day 1..31) of a day number
    counted from 1970-01-01. *)
Definition civilFromDays (days : Z) : Z * Z * Z :=
  let z := (days + 719468)%Z in
  let era := (z / 146097)%Z in
  let doe := (z - era * 146097)%Z in
  let yoe := ((doe - doe / 1460 + doe / 36524 - doe / 146096) / 365)%Z in
  let doy := (doe - (365 * yoe + yoe / 4 - yoe / 100))%Z in
  let mp := ((5 * doy + 2) / 153)%Z in
  let d := (doy - (153 * mp + 2) / 5 + 1)%Z in
  let m := (if mp <? 10 then mp + 3 else mp - 9)%Z in
  let y := (yoe + era * 400 + (if m <=? 2 then 1 else 0))%Z in
  (y, m, d).

Definition decimal (n : Z) : jsstring :=
  lit (NilZero.string_of_uint (N.to_uint (Z.to_N n))).

Definition zeroPad (width : nat) (s : jsstring) : jsstring :=
  replicate (width - length s) 48 ++ s.

Definition dayNames : list string :=
  ["Sun"; "Mon"; "Tue"; "Wed"; "Thu"; "Fri"; "Sat"]%string.
Definition monthNames : list string :=
  ["Jan"; "Feb"; "Mar"; "Apr"; "May"; "Jun";
   "Jul"; "Aug"; "Sep"; "Oct"; "Nov"; "Dec"]%string.

(** Date.prototype.toUTCString of the time value [t]; a time value
    outside +-8.64e15 ms is not a date. *)
Definition toUTCString (t : Z) : jsstring :=
  if (Z.abs t >? 8640000000000000)%Z then lit "Invalid Date"
  else
    let day := (t / msPerDay)%Z in
    let ms := (t mod msPerDay)%Z in
    let '(y, m, d) := civilFromDays day in
    lit (nth (Z.to_nat ((day + 4) mod 7)) dayNames EmptyString) ++ lit ", "
    ++ zeroPad 2 (decimal d) ++ lit " "
    ++ lit (nth (Z.to_nat (m - 1)) monthNames EmptyString) ++ lit " "
    ++ (if (y <? 0)%Z then lit "-" else []) ++ zeroPad 4 (decimal (Z.abs y))
    ++ lit " "
    ++ zeroPad 2 (decimal (ms / 3600000)) ++ lit ":"
    ++ zeroPad 2 (decimal (ms / 60000 mod 60)) ++ lit ":"
    ++ zeroPad 2 (decimal (ms / 1000 mod 60)) ++ lit " GMT".

(** *** document.cookie *)

Definition SEMI : N := 59.
Definition EQUALS : N := 61.
Definition isWSP (c : N) : bool := (c =? 32) || (c =? 9).

Definition notSemi (c : N) : bool := negb (c =? SEMI).
Definition notEquals (c : N) : bool := negb (c =? EQUALS).

Fixpoint takeWhile (p : N -> bool) (s : jsstring) : jsstring :=
  match s with
  | c :: t => if p c then c :: takeWhile p t else []
  | [] => []
  end.

Fixpoint dropWhile (p : N -> bool) (s : jsstring) : jsstring :=
  match s with
  | c :: t => if p c then dropWhile p t else s
  | [] => []
  end.

Definition trimWSP (s : jsstring) : jsstring :=
  rev (dropWhile isWSP (rev (dropWhile isWSP s))).

(** Reading [document.cookie]: the visible cookies as "name=value",
    joined by "; " (RFC 6265, section 5.4). *)
Fixpoint serialize (jar : list (jsstring * jsstring)) : jsstring :=
  match jar with
  | [] => []
  | [(n, v)] => n ++ EQUALS :: v
  | (n, v) :: rest => n ++ EQUALS :: v ++ lit "; " ++ serialize rest
  end.

Definition document_cookie : M jsstring := gets (fun w => serialize (cookies w)).

(** A cookie of the same name keeps its place and takes the new value;
    a new name goes last (RFC 6265, section 5.3, step 11). *)
Fixpoint store (n v : jsstring) (jar : list (jsstring * jsstring))
  : list (jsstring * jsstring) :=
  match jar with
  | [] => [(n, v)]
  | (n', v') :: rest =>
    if bool_decide (n' = n) then (n, v) :: rest else (n', v') :: store n v rest
  end.

(** Assigning a string to [document.cookie] (RFC 6265, section 5.2): the
    name-value pair is the text before the first ';', split at its first
    '='; both parts are trimmed; a pair without '=' or with an empty name
    is ignored. *)
Definition parsePair (str : jsstring) : option (jsstring * jsstring) :=
  let pair := takeWhile notSemi str in
  match dropWhile notEquals pair with
  | [] => None
  | _ :: value =>
    let name := trimWSP (takeWhile notEquals pair) in
    if bool_decide (name = []) then None else Some (name, trimWSP value)
  end.

(** The pieces of [s] between its ';'. *)
Fixpoint splitSemi (s : jsstring) : list jsstring :=
  match s with
  | [] => [[]]
  | c :: t =>
    if c =? SEMI then [] :: splitSemi t
    else match splitSemi t with
         | piece :: pieces => (c :: piece) :: pieces
         | [] => [[c]]
         end
  end.

(** The attributes of a set-cookie string (RFC 6265, section 5.2): the
    text from the first ';' on is cut at every ';'; each piece is split
    at its first '=' into a name and a value, a piece without '=' being
    a name with an empty value; both are trimmed. *)
Definition parseAv (av : jsstring) : jsstring * jsstring :=
  match dropWhile notEquals av with
  | [] => (trimWSP av, [])
  | _ :: value => (trimWSP (takeWhile notEquals av), trimWSP value)
  end.

Definition parseAttributes (str : jsstring) : list (jsstring * jsstring) :=
  match dropWhile notSemi str with
  | [] => []
  | _ :: unparsed => List.map parseAv (splitSemi unparsed)
  end.

(** The cookie is stored under its name, with its value and with the
    attributes it was given.  What the attributes mean is not
    interpreted here: the page writes path=/ and an expiry that lies
    ahead, with which the cookie stays visible to the page; a write
    whose expiry does not lie ahead, which makes a browser remove the
    cookie, is outside this model, and the statements below are about
    writes that expire later. *)
Definition set_document_cookie (str : jsstring) : M unit :=
  match parsePair str with
  | Some (n, v) =>
    modify (fun w =>
      with_attributes (<[n := parseAttributes str]> (attributes w))
                      (with_cookies (store n v (cookies w)) w))
  | None => ret tt
  end.

(** *** localStorage, classList, matchMedia, Date *)

Definition localStorage_getItem (k : jsstring) : M (option jsstring) :=
  gets (fun w => localStorage w !! k).
Definition localStorage_setItem (k v : jsstring) : M unit :=
  modify (fun w => with_localStorage (<[k:=v]> (localStorage w)) w).
Definition localStorage_removeItem (k : jsstring) : M unit :=
  modify (fun w => with_localStorage (delete k (localStorage w)) w).

(** [classList.toggle(token, force)]: adds the token when [force] is
    true, removes it otherwise. *)
Definition classList_toggle (token : jsstring) (force : bool) : M unit :=
  modify (fun w =>
    with_classList (if force then {[token]} ∪ classList w
                    else classList w ∖ {[token]}) w).

Definition matchMedia_prefersDark : M bool := gets prefersDark.
Definition Date_getTime : M Z := gets now.

End Browser.
Import Browser.

(** ** src/App.tsx *)

(** *** Theme persistence helpers (cookies) *)

(** type ThemeCookie = 'light' | 'dark' | 'system' *)
Inductive ThemeCookie := light | dark | system.

Definition str (t : ThemeCookie) : jsstring :=
  match t with
  | light => lit "light"
  | dark => lit "dark"
  | system => lit "system"
  end.

(** The rest of [s] after the literal [p], when [s] starts with [p]. *)
Fixpoint stripPrefix (p s : jsstring) : option jsstring :=
  match p, s with
  | [], _ => Some s
  | a :: p', b :: s' => if a =? b then stripPrefix p' s' else None
  | _ :: _, [] => None
  end.

(** The first capture group of the leftmost match, in [s], of the
    pattern built by [getCookie]: a non-capturing group that is either
    the start of the subject or the two characters "; ", then [name]
    with every regular expression metacharacter escaped, so that it
    stands for itself, then '=', then the capture group: the longest run
    of characters other than ';'.  [atStart] tells whether the current
    position is the start of the subject; that alternative is tried
    first. *)
Fixpoint cookieMatch (name : jsstring) (atStart : bool) (s : jsstring)
  : option jsstring :=
  let here :=
    match (if atStart then stripPrefix (name ++ [EQUALS]) s else None) with
    | Some r => Some (takeWhile notSemi r)
    | None =>
      match stripPrefix (lit "; " ++ name ++ [EQUALS]) s with
      | Some r => Some (takeWhile notSemi r)
      | None => None
      end
    end in
  match here with
  | Some cap => Some cap
  | None =>
    match s with
    | [] => None
    | _ :: t => cookieMatch name false t
    end
  end.

(** App.tsx, lines 22-25. *)
Definition getCookie (name : jsstring) : M (option jsstring) :=
  let* c := document_cookie in
  match cookieMatch name true c with
  | Some m1 => let* v := lift (decodeURIComponent m1) in ret (Some v)
  | None => ret None
  end.

(** The template literal of [setCookie], with its three holes filled. *)
Definition cookieText (name encoded expires : jsstring) : jsstring :=
  name ++ lit "=" ++ encoded ++ lit "; expires=" ++ expires
       ++ lit "; path=/; SameSite=Lax".

(** App.tsx, lines 26-30. *)
Definition setCookie (name value : jsstring) (days : Z) : M unit :=
  let* t := Date_getTime in
  let date := (t + days * 24 * 60 * 60 * 1000)%Z in
  let* encoded := lift (encodeURIComponent value) in
  set_document_cookie (cookieText name encoded (toUTCString date)).

(** The default of the parameter [days]. *)
Definition days_default : Z := 365.

(** *** The component [App] *)

(** The two [useState] cells. *)
Record ThemeState := mkState { isDark : bool; hasUserPref : bool }.

#[global] Instance ThemeState_eq_dec : EqDecision ThemeState.
Proof. solve_decision. Defined.

(** [useState(false)], twice. *)
Definition initial_state : ThemeState := mkState false false.

(** Calls of the state setters.  They are queued during an effect or an
    event handler and take effect at the next render. *)
Inductive action :=
| SetIsDark (v : bool)
| SetIsDarkWith (f : bool -> bool)
| SetHasUserPref (v : bool).

Definition reduce1 (s : ThemeState) (a : action) : ThemeState :=
  match a with
  | SetIsDark v => mkState v (hasUserPref s)
  | SetIsDarkWith f => mkState (f (isDark s)) (hasUserPref s)
  | SetHasUserPref v => mkState (isDark s) v
  end.

Definition reduce (s : ThemeState) (q : list action) : ThemeState :=
  fold_left reduce1 q s.

Definition THEME : jsstring := lit "theme".
Definition DARK : jsstring := str dark.
Definition LIGHT : jsstring := str light.
Definition SYSTEM : jsstring := str system.

(** [a || b] on values of type string | null: null and the empty string
    are falsy. *)
Definition truthy (v : option jsstring) : bool :=
  match v with
  | Some (_ :: _) => true
  | _ => false
  end.

(** [v === s] for [v] of type string | null. *)
Definition strictEq (v : option jsstring) (s : jsstring) : bool :=
  bool_decide (v = Some s).

(** First effect (lines 429-443), dependencies []: initialize the theme
    from cookie > localStorage > system.  The result is the list of
    setter calls it makes. *)
Definition init_effect : M (list action) :=
  let* c := getCookie THEME in
  let* cookieTheme :=
    (if truthy c then ret c else localStorage_getItem THEME) in
  let* mql_matches := matchMedia_prefersDark in
  if strictEq cookieTheme DARK || strictEq cookieTheme LIGHT then
    ret [SetIsDark (strictEq cookieTheme DARK); SetHasUserPref true]
  else
    setCookie THEME SYSTEM days_default >>
    ret [SetIsDark mql_matches; SetHasUserPref false].

(** Second effect (lines 445-460), dependencies [isDark, hasUserPref]:
    apply the theme to the document and persist the preference. *)
Definition apply_effect (s : ThemeState) : M unit :=
  classList_toggle DARK (isDark s) >>
  if hasUserPref s then
    let val := if isDark s then DARK else LIGHT in
    localStorage_setItem THEME val >>
    setCookie THEME val days_default
  else
    setCookie THEME SYSTEM days_default >>
    localStorage_removeItem THEME.

(** Lines 462-465: the setter calls of one toggle. *)
Definition toggleTheme : list action :=
  [SetHasUserPref true; SetIsDarkWith negb].

(** Third effect (lines 468-475), dependencies [hasUserPref]: the
    handler of the media query's change event.  [captured] is the value of [hasUserPref] in
    the render that installed the handler. *)
Definition handle (captured : bool) (e_matches : bool) : list action :=
  if negb captured then [SetIsDark e_matches] else [].

(** The mounted component: the committed state and the installed change
    handler, given by the [hasUserPref] it captured. *)
Record App := mkApp { state : ThemeState; listener : option bool }.

(** The commit of a render with state [new] after one with state
    [state a]: the effects whose dependencies changed run again, in the
    order of their declaration. *)
Definition commit (new : ThemeState) (a : App) : M App :=
  (if bool_decide (new = state a) then ret tt else apply_effect new) >>
  ret (mkApp new
         (if bool_decide (hasUserPref new = hasUserPref (state a))
          then listener a else Some (hasUserPref new))).

(** Processing the queued setter calls: no render when no cell changes. *)
Definition flush (q : list action) (a : App) : M App :=
  let new := reduce (state a) q in
  if bool_decide (new = state a) then ret a else commit new a.

(** The first render, with the initial state, and its commit: the three
    effects run in order, each seeing the state of that render; the
    setter calls of the first effect are left in the queue. *)
Definition first_commit : M (App * list action) :=
  let* q := init_effect in
  apply_effect initial_state >>
  ret (mkApp initial_state (Some (hasUserPref initial_state)), q).

(** A page load. *)
Definition mount : M App :=
  let* aq := first_commit in
  flush (snd aq) (fst aq).

(** What happens to a mounted page. *)
Inductive event :=
| Toggle                      (* a click on the theme button *)
| OSChange (matches : bool).  (* the OS colour scheme becomes dark / light *)

Definition dispatch (e : event) (a : App) : M App :=
  match e with
  | Toggle => flush toggleTheme a
  | OSChange b =>
    modify (with_prefersDark b) >>
    match listener a with
    | Some captured => flush (handle captured b) a
    | None => ret a
    end
  end.

Fixpoint run (es : list event) (a : App) : M App :=
  match es with
  | [] => ret a
  | e :: es' => let* a' := dispatch e a in run es' a'
  end.

(** ** Vocabulary of the statements *)

(** *** Cookie jars *)

(** Names and values as section 5.2 of RFC 6265 produces them. *)
Definition wf_cookie (c : jsstring * jsstring) : Prop :=
  (fst c <> []) /\ (SEMI ∉ fst c) /\ (EQUALS ∉ fst c) /\ (SEMI ∉ snd c).

Definition wf_jar (jar : list (jsstring * jsstring)) : Prop :=
  Forall wf_cookie jar.

(** The value of the first cookie called [n]. *)
Fixpoint jar_lookup (n : jsstring) (jar : list (jsstring * jsstring))
  : option jsstring :=
  match jar with
  | [] => None
  | (n', v) :: rest => if bool_decide (n' = n) then Some v else jar_lookup n rest
  end.

(** What [serialize] puts after a cookie that is followed by [jar]. *)
Definition sepTail (jar : list (jsstring * jsstring)) : jsstring :=
  match jar with
  | [] => []
  | _ :: _ => lit "; " ++ serialize jar
  end.

(** The attributes that [setCookie] gives a cookie at time [t]: the
    expiry [days] days later, the path "/" and SameSite=Lax. *)
Definition cookieAttributes (t days : Z) : list (jsstring * jsstring) :=
  [(lit "expires", toUTCString (t + days * 24 * 60 * 60 * 1000));
   (lit "path", lit "/");
   (lit "SameSite", lit "Lax")].

(** The browser after a cookie [n] with the stored value [v] has been
    written by [setCookie] with [days]. *)
Definition written (n v : jsstring) (days : Z) (w : World) : World :=
  with_attributes (<[n := cookieAttributes (now w) days]> (attributes w))
                  (with_cookies (store n v (cookies w)) w).

(** *** Effects and sessions *)

(** The preference that a state stands for. *)
Definition themeValue (s : ThemeState) : ThemeCookie :=
  if hasUserPref s then (if isDark s then dark else light) else system.

(** The browser after the apply step of a render with state [s]. *)
Definition applied (s : ThemeState) (w : World) : World :=
  mkWorld (store THEME (str (themeValue s)) (cookies w))
          (if hasUserPref s
           then <[THEME := str (themeValue s)]> (localStorage w)
           else delete THEME (localStorage w))
          (if isDark s then {[DARK]} ∪ classList w else classList w ∖ {[DARK]})
          (now w) (prefersDark w)
          (<[THEME := cookieAttributes (now w) days_default]> (attributes w)).

(** The two exits of the initialization effect. *)
Definition resolve (cookieTheme : option jsstring) (w : World)
  : outcome (list action) :=
  if strictEq cookieTheme DARK || strictEq cookieTheme LIGHT
  then Return [SetIsDark (strictEq cookieTheme DARK); SetHasUserPref true] w
  else Return [SetIsDark (prefersDark w); SetHasUserPref false]
              (written THEME SYSTEM days_default w).

(** Initialization of the page in [w] queues the setter calls for
    [isDark := d] and [hasUserPref := h], writes the cookie "system" when
    [writes] is true and nothing otherwise, and the page comes up with
    that state. *)
Definition initializes (w : World) (d h writes : bool) : Prop :=
  init_effect w
  = Return [SetIsDark d; SetHasUserPref h]
           (if writes then written THEME SYSTEM days_default w else w)
  /\ exists a w', mount w = Return a w' /\ state a = mkState d h.

(** A mounted page at rest: the installed handler has captured the
    current [hasUserPref], and both stores hold what the last apply step
    wrote for the current state. *)
Definition settled (a : App) (w : World) : Prop :=
  wf_jar (cookies w)
  /\ listener a = Some (hasUserPref (state a))
  /\ jar_lookup THEME (cookies w) = Some (str (themeValue (state a)))
  /\ localStorage w !! THEME
     = (if hasUserPref (state a) then Some (str (themeValue (state a)))
        else None)
  /\ (hasUserPref (state a) = false -> isDark (state a) = prefersDark w).

(** The sessions of a page: a page load on a browser with a well-formed
    cookie jar, followed by any events. *)
Inductive Reachable : App -> World -> Prop :=
| Reachable_mount w a w' :
    wf_jar (cookies w) -> mount w = Return a w' -> Reachable a w'
| Reachable_dispatch e a w a' w' :
    Reachable a w -> dispatch e a w = Return a' w' -> Reachable a' w'.

(** *** The storage invariant *)

(** The two stores agree with [hasUserPref]: it is true exactly when the
    cookie reads light or dark and the session-local store holds the
    same value; when it is false the cookie reads system and the
    session-local store has no theme. *)
Definition storage_consistent (s : ThemeState) (w : World) : Prop :=
  (hasUserPref s = true <->
   exists t, (t = light \/ t = dark)
             /\ getCookie THEME w = Return (Some (str t)) w
             /\ localStorage w !! THEME = Some (str t))
  /\ (hasUserPref s = false ->
      getCookie THEME w = Return (Some (str system)) w
      /\ localStorage w !! THEME = None).

(** Without a user preference isDark is the OS signal. *)
Definition tracks_os (s : ThemeState) (w : World) : Prop :=
  hasUserPref s = false -> isDark s = prefersDark w.

(** The invariant of section 3 of the specification. *)
Definition invariant (s : ThemeState) (w : World) : Prop :=
  storage_consistent s w /\ tracks_os s w.

(** A stored value outside light / dark / system. *)
Definition malformed (v : jsstring) : Prop :=
  v <> str light /\ v <> str dark /\ v <> str system.

(** The state a page load ends in; [None] when an effect threw. *)
Definition mounted_state (w : World) : option ThemeState :=
  match mount w with
  | Return a _ => Some (state a)
  | Throw _ _ => None
  end.

(** The value of isDark after the events [es], when no OS change acts. *)
Fixpoint afterToggles (es : list event) (d : bool) : bool :=
  match es with
  | [] => d
  | Toggle :: es' => afterToggles es' (negb d)
  | OSChange _ :: es' => afterToggles es' d
  end.

(** *** Concrete browsers and pages *)

(** A browser that carries another cookie, the theme cookie dark and the
    session-local value light. *)
Definition stored_world : World :=
  mkWorld [(lit "sid", lit "a1"); (THEME, str dark)] {[THEME := str light]}
          ∅ 1793592600000 false ∅.

(** A browser without stored theme, with the OS signal [os]. *)
Definition fresh_world (os : bool) : World :=
  mkWorld [(lit "sid", lit "a1")] ∅ ∅ 1793592600000 os ∅.

(** A browser whose theme cookie holds an unknown value. *)
Definition purple_world : World :=
  mkWorld [(THEME, lit "purple")] {[THEME := str dark]} ∅ 1793592600000 true
          ∅.

(** The page loaded in [fresh_world os], and the browser after the load. *)
Definition fresh_app (os : bool) : App := mkApp (mkState os false) (Some false).
Definition fresh_loaded (os : bool) : World :=
  mkWorld [(lit "sid", lit "a1"); (THEME, str system)] ∅
          (if os then {[DARK]} else ∅) 1793592600000 os
          {[THEME := cookieAttributes 1793592600000 days_default]}.

(** The same page after one click on the theme button. *)
Definition toggled_app : App := mkApp (mkState true true) (Some true).
Definition toggled_world : World :=
  mkWorld [(lit "sid", lit "a1"); (THEME, str dark)] {[THEME := str dark]}
          {[DARK]} 1793592600000 false
          {[THEME := cookieAttributes 1793592600000 days_default]}.

(** A later visit with the stores of [toggled_world]. *)
Definition reloaded_world : World :=
  mkWorld (cookies toggled_world) (localStorage toggled_world) ∅
          1800000000000 false ∅.

(** *** Strings, names and frames of the further properties *)

(** Well-formed UTF-16: every lead surrogate is followed by a trail
    surrogate and no trail surrogate stands alone
    (String.prototype.isWellFormed). *)
Fixpoint wellFormed (s : jsstring) : bool :=
  match s with
  | [] => true
  | c :: t =>
    if isLeadSurrogate c then
      match t with
      | d :: t' => isTrailSurrogate d && wellFormed t'
      | [] => false
      end
    else negb (isTrailSurrogate c) && wellFormed t
  end.

(** Code units are 16 bits wide. *)
Definition codeUnits (s : jsstring) : Prop := Forall (fun c => c < 65536) s.

(** What an encoded text is made of. *)
Definition plain (c : N) : Prop := uriUnescaped c = true \/ c = 37.

(** A name that the browser stores as it is written. *)
Definition cleanName (n : jsstring) : Prop :=
  n <> [] /\ (SEMI ∉ n) /\ (EQUALS ∉ n) /\ trimWSP n = n.

(** A '%' that does not start an escape: fewer than two characters
    follow it, or they are not two hexadecimal digits. *)
Definition bareEscape (tail : jsstring) : Prop :=
  match tail with
  | h :: l :: _ => parseHexOctet h l = None
  | _ => True
  end.

(** What a page leaves alone: every cookie but theme, every key of the
    session-local store but theme, every class but dark, and the clock. *)
Definition untouched (w w' : World) : Prop :=
  (forall n, n <> THEME -> jar_lookup n (cookies w') = jar_lookup n (cookies w))
  /\ (forall k, k <> THEME -> localStorage w' !! k = localStorage w !! k)
  /\ (forall t, t <> DARK -> t ∈ classList w' <-> t ∈ classList w)
  /\ now w' = now w.

(** *** The pattern of [getCookie] (App.tsx, line 23) *)

(** The characters of the class that [getCookie] escapes in a name. *)
Definition regexSpecial : jsstring := lit ".$?*|{}()[]\/+^".

(** name.replace(/([...])/g, '\\$1') with that class: a backslash before
    every character of the class. *)
Definition escapeRegExp (name : jsstring) : jsstring :=
  flat_map (fun c => if bool_decide (c ∈ regexSpecial) then [92; c] else [c])
           name.

(** SyntaxCharacter of the ECMAScript pattern grammar. *)
Definition syntaxCharacter (c : N) : bool :=
  bool_decide (c ∈ lit "^$\.*+?()[]{}|").

(** The text that a pattern made of pattern characters and identity
    escapes matches, and nothing else: a pattern character stands for
    itself, a backslash followed by a syntax character or '/' for that
    character; [None] for a pattern with any other construct. *)
Fixpoint readLiteral (p : jsstring) : option jsstring :=
  match p with
  | [] => Some []
  | c :: t =>
    if c =? 92 then
      match t with
      | e :: t' =>
        if syntaxCharacter e || (e =? 47)
        then option_map (cons e) (readLiteral t')
        else None
      | [] => None
      end
    else if syntaxCharacter c then None
    else option_map (cons c) (readLiteral t)
  end.

(** *** Checks over finite ranges of octets and code points *)

(** [p] holds of the [n] numbers from [c] on. *)
Fixpoint allFrom (n : nat) (c : N) (p : N -> bool) : bool :=
  match n with
  | O => true
  | S n' => p c && allFrom n' (N.succ c) p
  end.

Definition octet (b : N) : bool := b <? 256.

(** The octets of [cp] are octets, announce their number in the first
    one, and decode back to [cp]. *)
Definition octetsOK (cp : N) : bool :=
  let bs := utf8Encode cp in
  forallb octet bs
  && match bs with
     | [b] => Nat.eqb (leadingOnes b) 0 && (b =? cp)
     | b :: _ =>
       Nat.eqb (leadingOnes b) (length bs) && Nat.leb (length bs) 4
       && match utf8Decode bs with Some cp' => cp' =? cp | None => false end
     | [] => false
     end.

(** A code unit that is no surrogate survives UTF-8 and UTF-16. *)
Definition unitOK (c : N) : bool :=
  isLeadSurrogate c || isTrailSurrogate c
  || (octetsOK c && match utf16Encode c with [x] => x =? c | _ => false end).

(** The two hexadecimal digits of an octet are unescaped characters and
    parse back to it. *)
Definition hexOK (b : N) : bool :=
  match parseHexOctet (hexDigit (b / 16)) (hexDigit (b mod 16)) with
  | Some b' =>
    (b' =? b) && uriUnescaped (hexDigit (b / 16))
    && uriUnescaped (hexDigit (b mod 16))
  | None => false
  end.

(** The first two octets of a four-octet sequence, from the bits of the
    code point above the lowest twelve. *)
Definition hiOK (hi : N) : bool :=
  let b0 := N.lor 0xF0 (N.shiftr hi 6) in
  let b1 := N.lor 0x80 (N.land hi 0x3F) in
  octet b0 && octet b1 && Nat.eqb (leadingOnes b0) 4 && isContinuation b1
  && (N.lor (N.shiftl (N.land b0 0x07) 18) (N.shiftl (N.land b1 0x3F) 12)
      =? N.shiftl hi 12).

(** The last two octets, from the lowest twelve bits. *)
Definition loOK (lo : N) : bool :=
  let b2 := N.lor 0x80 (N.shiftr lo 6) in
  let b3 := N.lor 0x80 (N.land lo 0x3F) in
  octet b2 && octet b3 && isContinuation b2 && isContinuation b3
  && (N.lor (N.shiftl (N.land b2 0x3F) 6) (N.land b3 0x3F) =? lo).

(** *** Further concrete browsers *)

(** A value with a character outside ASCII, a space and a surrogate pair. *)
Definition euro_value : jsstring := [0x20AC; 32; 0xD83D; 0xDE00].
Definition euro_encoded : jsstring := lit "%E2%82%AC%20%F0%9F%98%80".

(** A browser with two cookies whose names end alike. *)
Definition alike_world : World :=
  mkWorld [(lit "xtheme", lit "q"); (THEME, lit "li%67ht"); (lit "b", lit "1")]
          ∅ ∅ 1793592600000 false ∅.

(** A browser whose theme cookie ends in a bare '%'. *)
Definition percent_world : World :=
  mkWorld [(THEME, lit "50%")] ∅ ∅ 1793592600000 false ∅.

(** [stored_world] after the first commit of a page load. *)
Definition stored_first_commit : World :=
  mkWorld [(lit "sid", lit "a1"); (THEME, str system)] ∅ ∅ 1793592600000 false
          {[THEME := cookieAttributes 1793592600000 days_default]}.

(** A later visit with the stores of [fresh_loaded true], the OS now light. *)
Definition revisit_world : World :=
  mkWorld (cookies (fresh_loaded true)) (localStorage (fresh_loaded true)) ∅
          1800000000000 false ∅.

(** ** Cookie jars and the pattern of [getCookie] *)

Section Jar.

#[local] Arguments N.eqb : simpl never.

Lemma serialize_cons n v rest :
  serialize ((n, v) :: rest) = n ++ EQUALS :: v ++ sepTail rest.
Proof.
  destruct rest as [|e j]; simpl.
  - by rewrite app_nil_r.
  - by destruct e.
Qed.

Lemma takeWhile_notSemi_app v rest :
  SEMI ∉ v -> (rest = [] \/ exists r, rest = SEMI :: r) ->
  takeWhile notSemi (v ++ rest) = v.
Proof.
  intros Hv Hr. induction v as [|c v IH]; simpl.
  - destruct Hr as [-> | [r ->]]; reflexivity.
  - apply not_elem_of_cons in Hv as [Hc Hv].
    unfold notSemi at 1. destruct (N.eqb_spec c SEMI) as [->|_]; [done|].
    simpl. by rewrite IH.
Qed.

Lemma sepTail_shape jar : sepTail jar = [] \/ exists r, sepTail jar = SEMI :: r.
Proof. destruct jar; [by left | right; by eexists]. Qed.

Lemma stripPrefix_name p n t :
  EQUALS ∉ p -> EQUALS ∉ n ->
  stripPrefix (p ++ [EQUALS]) (n ++ EQUALS :: t)
  = if bool_decide (n = p) then Some t else None.
Proof.
  revert n. induction p as [|a p IH]; intros n Hp Hn.
  - destruct n as [|b n]; cbn [stripPrefix app].
    + done.
    + apply not_elem_of_cons in Hn as [Hb _].
      destruct (N.eqb_spec EQUALS b) as [<-|_]; [done|].
      case_bool_decide; congruence.
  - apply not_elem_of_cons in Hp as [Ha Hp].
    destruct n as [|b n]; cbn [stripPrefix app].
    + destruct (N.eqb_spec a EQUALS) as [->|_]; [done|].
      case_bool_decide; congruence.
    + apply not_elem_of_cons in Hn as [Hb Hn].
      destruct (N.eqb_spec a b) as [->|Hab].
      * rewrite IH by done. repeat case_bool_decide; congruence.
      * case_bool_decide; congruence.
Qed.

Lemma cookieMatch_eq name atStart s :
  cookieMatch name atStart s =
  match
    match (if atStart then stripPrefix (name ++ [EQUALS]) s else None) with
    | Some r => Some (takeWhile notSemi r)
    | None =>
      match stripPrefix (lit "; " ++ name ++ [EQUALS]) s with
      | Some r => Some (takeWhile notSemi r)
      | None => None
      end
    end
  with
  | Some cap => Some cap
  | None => match s with [] => None | _ :: t => cookieMatch name false t end
  end.
Proof. destruct s; reflexivity. Qed.

Lemma app_cons_assoc (n : jsstring) c v r :
  n ++ c :: v ++ r = (n ++ c :: v) ++ r.
Proof. by rewrite <- app_assoc. Qed.

(** Inside a name or a value no match starts. *)
Lemma cookieMatch_skip name u rest :
  SEMI ∉ u ->
  cookieMatch name false (u ++ rest) = cookieMatch name false rest.
Proof.
  intros Hu. induction u as [|c u IH]; [done|].
  apply not_elem_of_cons in Hu as [Hc Hu].
  rewrite cookieMatch_eq. change (lit "; ") with [SEMI; 32].
  cbn [stripPrefix app].
  destruct (N.eqb_spec SEMI c) as [<-|_]; [done|]. by apply IH.
Qed.

Lemma cookieMatch_sepTail name jar :
  EQUALS ∉ name -> wf_jar jar ->
  cookieMatch name false (sepTail jar) = jar_lookup name jar.
Proof.
  intros Hname. induction 1 as [|[n v] rest (Hne & Hsn & Hen & Hsv) Hrest IH].
  - reflexivity.
  - cbn [fst snd] in *. cbn [sepTail jar_lookup].
    rewrite serialize_cons, cookieMatch_eq.
    change (lit "; ") with [SEMI; 32]. cbn [stripPrefix app].
    rewrite !N.eqb_refl, stripPrefix_name by done.
    case_bool_decide.
    + by rewrite takeWhile_notSemi_app by auto using sepTail_shape.
    + rewrite cookieMatch_eq. cbn [stripPrefix app].
      change (SEMI =? 32) with false. cbv iota.
      rewrite app_cons_assoc.
      rewrite cookieMatch_skip; [done|].
      rewrite not_elem_of_app, not_elem_of_cons. by repeat split.
Qed.

(** On a well-formed jar the pattern finds the first cookie of that
    name, and captures its whole value. *)
Lemma cookieMatch_serialize name jar :
  EQUALS ∉ name -> wf_jar jar ->
  cookieMatch name true (serialize jar) = jar_lookup name jar.
Proof.
  intros Hname Hjar. destruct Hjar as [|[n v] rest (Hne & Hsn & Hen & Hsv) Hrest].
  - by destruct name.
  - cbn [fst snd] in *. cbn [jar_lookup].
    rewrite serialize_cons, cookieMatch_eq.
    rewrite stripPrefix_name by done.
    case_bool_decide.
    + by rewrite takeWhile_notSemi_app by auto using sepTail_shape.
    + destruct n as [|c n]; [done|].
      apply not_elem_of_cons in Hsn as [Hc Hsn].
      change (lit "; ") with [SEMI; 32]. cbn [stripPrefix app].
      destruct (N.eqb_spec SEMI c) as [<-|_]; [done|].
      rewrite app_cons_assoc.
      rewrite cookieMatch_skip.
      * by apply cookieMatch_sepTail.
      * rewrite not_elem_of_app, not_elem_of_cons. by repeat split.
Qed.

Lemma jar_lookup_store n v jar : jar_lookup n (store n v jar) = Some v.
Proof.
  induction jar as [|[n' v'] rest IH]; cbn [store jar_lookup].
  - by rewrite bool_decide_eq_true_2.
  - case_bool_decide; cbn [jar_lookup].
    + by rewrite bool_decide_eq_true_2.
    + by rewrite bool_decide_eq_false_2.
Qed.

Lemma jar_lookup_store_ne n m v jar :
  m <> n -> jar_lookup m (store n v jar) = jar_lookup m jar.
Proof.
  intros Hne. induction jar as [|[n' v'] rest IH]; cbn [store jar_lookup].
  - by rewrite bool_decide_eq_false_2.
  - case_bool_decide; cbn [jar_lookup]; [|by rewrite IH].
    subst n'. by rewrite !bool_decide_eq_false_2.
Qed.

Lemma wf_jar_store n v jar :
  wf_cookie (n, v) -> wf_jar jar -> wf_jar (store n v jar).
Proof.
  intros Hc. unfold wf_jar.
  induction 1 as [|[n' v'] rest Hc' Hrest IH]; cbn [store].
  - by apply Forall_cons.
  - case_bool_decide; by apply Forall_cons.
Qed.

(** Writing the same value again leaves the jar as it is. *)
Lemma store_store n v v' jar : store n v (store n v' jar) = store n v jar.
Proof.
  induction jar as [|[n' u] rest IH]; cbn [store].
  - by rewrite bool_decide_eq_true_2.
  - case_bool_decide; cbn [store].
    + by rewrite bool_decide_eq_true_2.
    + rewrite bool_decide_eq_false_2 by done. by rewrite IH.
Qed.

Lemma takeWhile_notEquals_app n t :
  EQUALS ∉ n -> takeWhile notEquals (n ++ EQUALS :: t) = n.
Proof.
  intros Hn. induction n as [|c n IH]; [done|].
  apply not_elem_of_cons in Hn as [Hc Hn]. cbn [takeWhile app].
  unfold notEquals at 1. destruct (N.eqb_spec c EQUALS) as [->|_]; [done|].
  cbn [negb]. by rewrite IH.
Qed.

Lemma dropWhile_notEquals_app n t :
  EQUALS ∉ n -> dropWhile notEquals (n ++ EQUALS :: t) = EQUALS :: t.
Proof.
  intros Hn. induction n as [|c n IH]; [done|].
  apply not_elem_of_cons in Hn as [Hc Hn]. cbn [dropWhile app].
  unfold notEquals at 1. destruct (N.eqb_spec c EQUALS) as [->|_]; [done|].
  cbn [negb]. by apply IH.
Qed.

(** The browser reads back the pair that [setCookie] wrote. *)
Lemma parsePair_cookieText n v expires :
  n <> [] -> SEMI ∉ n -> EQUALS ∉ n -> SEMI ∉ v ->
  trimWSP n = n -> trimWSP v = v ->
  parsePair (cookieText n v expires) = Some (n, v).
Proof.
  intros Hne Hsn Hen Hsv Htn Htv. unfold parsePair, cookieText.
  change (n ++ lit "=" ++ v ++ lit "; expires=" ++ ?r)
    with (n ++ EQUALS :: v ++ SEMI :: lit " expires=" ++ r).
  rewrite app_cons_assoc, takeWhile_notSemi_app.
  - rewrite dropWhile_notEquals_app, takeWhile_notEquals_app by done.
    rewrite Htn, Htv. by rewrite bool_decide_eq_false_2.
  - rewrite not_elem_of_app, not_elem_of_cons. by repeat split.
  - right. by eexists.
Qed.

End Jar.

(** ** Percent-encoding *)



(** Text made of unescaped characters is its own encoding, and text
    without '%' its own decoding. *)
Lemma encode_unescaped s :
  forallb uriUnescaped s = true -> encodeURIComponent s = Ok s.
Proof.
  induction s as [|c s IH]; [done|]. cbn [forallb encodeURIComponent].
  intros [Hc Hs]%andb_prop. by rewrite Hc, IH.
Qed.

Lemma decode_plain s : 37 ∉ s -> decodeURIComponent s = Ok s.
Proof.
  unfold decodeURIComponent. induction s as [|c s IH]; [done|].
  intros [Hc Hs]%not_elem_of_cons. cbn [length decode].
  destruct (N.eqb_spec c 37) as [->|_]; [done|]. by rewrite IH.
Qed.

Lemma uriUnescaped_not_percent s : forallb uriUnescaped s = true -> 37 ∉ s.
Proof.
  induction s as [|c s IH]; [intros _; apply not_elem_of_nil|].
  cbn [forallb]. intros [Hc Hs]%andb_prop. apply not_elem_of_cons.
  split; [|by apply IH]. intros <-. by vm_compute in Hc.
Qed.

Lemma roundtrip_unescaped s :
  forallb uriUnescaped s = true ->
  exists e, encodeURIComponent s = Ok e /\ decodeURIComponent e = Ok s.
Proof.
  intros Hs. exists s. split; [by apply encode_unescaped|].
  by apply decode_plain, uriUnescaped_not_percent.
Qed.

Lemma encode_theme (t : ThemeCookie) : encodeURIComponent (str t) = Ok (str t).
Proof. by destruct t. Qed.

Lemma decode_theme (t : ThemeCookie) : decodeURIComponent (str t) = Ok (str t).
Proof. by destruct t. Qed.

Lemma truthy_theme (t : ThemeCookie) : truthy (Some (str t)) = true.
Proof. by destruct t. Qed.

Ltac by_computation := apply (bool_decide_unpack _); vm_compute; exact I.

(** ** The attributes of a written cookie *)

Lemma dropWhile_notSemi_app v rest :
  SEMI ∉ v -> dropWhile notSemi (v ++ SEMI :: rest) = SEMI :: rest.
Proof.
  intros Hv. induction v as [|c v IH]; [done|].
  apply not_elem_of_cons in Hv as [Hc Hv]. cbn [dropWhile app].
  unfold notSemi at 1. destruct (N.eqb_spec c SEMI) as [->|_]; [done|].
  cbn [negb]. by apply IH.
Qed.

Lemma splitSemi_app u r :
  SEMI ∉ u -> splitSemi (u ++ SEMI :: r) = u :: splitSemi r.
Proof.
  intros Hu. induction u as [|c u IH].
  - cbn [app splitSemi]. by rewrite N.eqb_refl.
  - apply not_elem_of_cons in Hu as [Hc Hu]. cbn [app splitSemi].
    destruct (N.eqb_spec c SEMI) as [->|_]; [done|]. by rewrite IH.
Qed.

Lemma parseAttributes_cookieText n v expires :
  SEMI ∉ n -> SEMI ∉ v -> SEMI ∉ expires -> trimWSP expires = expires ->
  parseAttributes (cookieText n v expires)
  = [(lit "expires", expires); (lit "path", lit "/");
     (lit "SameSite", lit "Lax")].
Proof.
  intros Hn Hv He Ht. unfold parseAttributes, cookieText.
  change (n ++ lit "=" ++ v ++ lit "; expires=" ++ expires
            ++ lit "; path=/; SameSite=Lax")
    with (n ++ EQUALS :: v ++ SEMI ::
            (lit " expires" ++ EQUALS :: expires)
            ++ SEMI :: lit " path=/; SameSite=Lax").
  rewrite app_cons_assoc, dropWhile_notSemi_app
    by (rewrite not_elem_of_app, not_elem_of_cons; by repeat split).
  rewrite splitSemi_app
    by (rewrite not_elem_of_app, not_elem_of_cons; repeat split;
        [by_computation | done | done]).
  change (splitSemi (lit " path=/; SameSite=Lax"))
    with [lit " path=/"; lit " SameSite=Lax"].
  cbn [List.map]. f_equal.
  unfold parseAv.
  rewrite dropWhile_notEquals_app, takeWhile_notEquals_app by by_computation.
  by rewrite Ht.
Qed.

Lemma lit_String a s : lit (String a s) = N_of_ascii a :: lit s.
Proof. reflexivity. Qed.

Lemma digits_no_semi (d : Decimal.uint) : SEMI ∉ lit (NilZero.string_of_uint d).
Proof.
  assert (H : forall d, SEMI ∉ lit (NilEmpty.string_of_uint d)).
  { clear d. induction d as [|d IH|d IH|d IH|d IH|d IH|d IH|d IH|d IH|d IH|d IH];
      cbn [NilEmpty.string_of_uint]; [apply not_elem_of_nil|..];
      rewrite lit_String; by apply not_elem_of_cons. }
  destruct d; [by_computation | apply H ..].
Qed.

Lemma zeroPad_no_semi width s : SEMI ∉ s -> SEMI ∉ zeroPad width s.
Proof.
  intros Hs. unfold zeroPad. rewrite not_elem_of_app. split; [|done].
  by intros [? _]%elem_of_replicate.
Qed.

Lemma name_no_semi (names : list string) i :
  Forall (fun name => SEMI ∉ lit name) names ->
  SEMI ∉ lit (nth i names EmptyString).
Proof.
  intros Hnames. revert i.
  induction Hnames as [|name names Hname _ IH]; intros [|i]; cbn [nth];
    try done; apply not_elem_of_nil.
Qed.

Lemma dayNames_no_semi : Forall (fun name => SEMI ∉ lit name) dayNames.
Proof. by_computation. Qed.

Lemma monthNames_no_semi : Forall (fun name => SEMI ∉ lit name) monthNames.
Proof. by_computation. Qed.

(** A rendered date has no ';'. *)
Lemma toUTCString_no_semi t : SEMI ∉ toUTCString t.
Proof.
  unfold toUTCString. destruct (Z.abs t >? 8640000000000000)%Z; [by_computation|].
  destruct (civilFromDays (t / msPerDay)) as [[y m] d].
  assert (Hsign : SEMI ∉ (if (y <? 0)%Z then lit "-" else [])).
  { destruct (y <? 0)%Z; by_computation. }
  assert (Hpad : forall width n, SEMI ∉ zeroPad width (decimal n))
    by (intros; apply zeroPad_no_semi, digits_no_semi).
  assert (Hday := name_no_semi dayNames
                    (Z.to_nat ((t / msPerDay + 4) mod 7)) dayNames_no_semi).
  assert (Hmonth := name_no_semi monthNames (Z.to_nat (m - 1))
                      monthNames_no_semi).
  assert (Hcomma : SEMI ∉ lit ", ") by by_computation.
  assert (Hspace : SEMI ∉ lit " ") by by_computation.
  assert (Hcolon : SEMI ∉ lit ":") by by_computation.
  assert (Hgmt : SEMI ∉ lit " GMT") by by_computation.
  rewrite !not_elem_of_app. repeat split; solve [auto].
Qed.

Lemma trimWSP_stable s a z :
  head s = Some a -> last s = Some z -> isWSP a = false -> isWSP z = false ->
  trimWSP s = s.
Proof.
  intros Hhead [l ->]%last_Some Ha Hz. unfold trimWSP.
  destruct l as [|b l]; cbn [app head] in Hhead; injection Hhead as ->.
  - cbn [dropWhile app rev]. rewrite Hz. cbn [rev app dropWhile]. by rewrite Hz.
  - cbn [app dropWhile]. rewrite Ha.
    change (a :: l ++ [z]) with ((a :: l) ++ [z]).
    rewrite rev_unit. cbn [dropWhile]. rewrite Hz.
    change (z :: rev (a :: l)) with ([z] ++ rev (a :: l)).
    by rewrite rev_app_distr, rev_involutive.
Qed.

(** A rendered date neither starts nor ends with white space. *)
Lemma toUTCString_trim t : trimWSP (toUTCString t) = toUTCString t.
Proof.
  unfold toUTCString. destruct (Z.abs t >? 8640000000000000)%Z; [done|].
  destruct (civilFromDays (t / msPerDay)) as [[y m] d].
  set (i := Z.to_nat ((t / msPerDay + 4) mod 7)).
  assert (Hhead : exists a, head (lit (nth i dayNames EmptyString) ++ lit ", ")
                            = Some a /\ isWSP a = false).
  { do 8 (destruct i as [|i]; [by eexists|]). destruct i; by eexists. }
  destruct Hhead as (a & Hhead & Ha).
  apply (trimWSP_stable _ a 84); [| |done|done].
  - rewrite app_assoc. apply head_Some in Hhead as [rest Hrest].
    by rewrite Hrest.
  - repeat (rewrite last_app). done.
Qed.

(** ** The cookie helpers on a well-formed jar *)

Lemma getCookie_spec name w :
  EQUALS ∉ name -> wf_jar (cookies w) ->
  getCookie name w =
  match jar_lookup name (cookies w) with
  | Some raw =>
    match decodeURIComponent raw with
    | Ok v => Return (Some v) w
    | Raise e => Throw e w
    end
  | None => Return None w
  end.
Proof.
  intros Hname Hwf. unfold getCookie, bind, document_cookie, gets.
  rewrite cookieMatch_serialize by done.
  destruct (jar_lookup name (cookies w)) as [raw|]; [|done].
  by destruct (decodeURIComponent raw).
Qed.

Lemma setCookie_spec name value encoded days w :
  encodeURIComponent value = Ok encoded ->
  name <> [] -> SEMI ∉ name -> EQUALS ∉ name -> SEMI ∉ encoded ->
  trimWSP name = name -> trimWSP encoded = encoded ->
  setCookie name value days w = Return tt (written name encoded days w).
Proof.
  intros Henc ? ? ? ? ? ?. unfold setCookie, bind, Date_getTime, gets.
  rewrite Henc. cbn [lift ret]. unfold set_document_cookie.
  rewrite parsePair_cookieText by done.
  by rewrite parseAttributes_cookieText
    by auto using toUTCString_no_semi, toUTCString_trim.
Qed.

Lemma setCookie_theme (t : ThemeCookie) days w :
  setCookie THEME (str t) days w = Return tt (written THEME (str t) days w).
Proof.
  apply setCookie_spec; [apply encode_theme | done | ..];
    destruct t; try by_computation; reflexivity.
Qed.

Lemma THEME_no_equals : EQUALS ∉ THEME.
Proof. by_computation. Qed.

Lemma wf_cookie_theme (t : ThemeCookie) : wf_cookie (THEME, str t).
Proof. destruct t; by_computation. Qed.

(** ** What one apply step does *)

Lemma apply_effect_applied s w : apply_effect s w = Return tt (applied s w).
Proof.
  destruct s as [d h]. unfold apply_effect, bind, classList_toggle, modify.
  cbn [isDark hasUserPref]. destruct h.
  - unfold localStorage_setItem, modify.
    replace (if d then DARK else LIGHT) with (str (if d then dark else light))
      by by destruct d.
    rewrite setCookie_theme. by destruct d.
  - change SYSTEM with (str system). rewrite setCookie_theme.
    by destruct d.
Qed.

Lemma flush_spec q a w :
  flush q a w =
  let new := reduce (state a) q in
  if bool_decide (new = state a) then Return a w
  else Return (mkApp new
                 (if bool_decide (hasUserPref new = hasUserPref (state a))
                  then listener a else Some (hasUserPref new)))
              (applied new w).
Proof.
  unfold flush, commit, bind. cbv zeta.
  case_bool_decide; [done|]. by rewrite apply_effect_applied.
Qed.

(** Running the apply step again with the same state changes nothing
    (P2 of the specification). *)
Lemma applied_idempotent s w : applied s (applied s w) = applied s w.
Proof.
  destruct w as [j m c t os av]. unfold applied. cbn [cookies localStorage
    classList now prefersDark attributes]. f_equal.
  - apply store_store.
  - destruct (hasUserPref s).
    + apply insert_insert_eq.
    + apply map_eq. intros k. destruct (decide (k = THEME)) as [->|Hk].
      * by rewrite !lookup_delete_eq.
      * by rewrite !lookup_delete_ne.
  - destruct (isDark s); apply set_eq; intros x.
    + rewrite !elem_of_union. tauto.
    + rewrite !elem_of_difference. tauto.
  - apply insert_insert_eq.
Qed.

(** ** Initialization *)

Lemma init_effect_spec w :
  wf_jar (cookies w) ->
  init_effect w =
  match jar_lookup THEME (cookies w) with
  | Some raw =>
    match decodeURIComponent raw with
    | Ok v => resolve (if truthy (Some v) then Some v
                       else localStorage w !! THEME) w
    | Raise e => Throw e w
    end
  | None => resolve (localStorage w !! THEME) w
  end.
Proof.
  intros Hwf. unfold init_effect, bind at 1.
  rewrite getCookie_spec by auto using THEME_no_equals.
  assert (Hres : forall ct,
    (let* mql_matches := matchMedia_prefersDark in
     if strictEq ct DARK || strictEq ct LIGHT
     then ret [SetIsDark (strictEq ct DARK); SetHasUserPref true]
     else setCookie THEME SYSTEM days_default >>
          ret [SetIsDark mql_matches; SetHasUserPref false]) w = resolve ct w).
  { intros ct. unfold bind, matchMedia_prefersDark, gets, resolve.
    destruct (strictEq ct DARK || strictEq ct LIGHT); [done|].
    change SYSTEM with (str system). by rewrite setCookie_theme. }
  destruct (jar_lookup THEME (cookies w)) as [raw|].
  - destruct (decodeURIComponent raw) as [v|e]; [|done].
    unfold bind. destruct (truthy (Some v)).
    + apply Hres.
    + unfold localStorage_getItem, gets. apply Hres.
  - unfold bind, localStorage_getItem, gets. apply Hres.
Qed.

Lemma mount_spec w q w1 :
  init_effect w = Return q w1 ->
  first_commit w
  = Return (mkApp initial_state (Some false), q) (applied initial_state w1)
  /\ mount w
     = flush q (mkApp initial_state (Some false)) (applied initial_state w1).
Proof.
  intros Hinit. unfold mount, bind, first_commit, bind.
  by rewrite Hinit, apply_effect_applied.
Qed.

Lemma resolve_initializes w ct d h (writes : bool) :
  init_effect w = resolve ct w ->
  resolve ct w
  = Return [SetIsDark d; SetHasUserPref h]
           (if writes then written THEME SYSTEM days_default w else w) ->
  initializes w d h writes.
Proof.
  intros Hinit Hres. rewrite Hres in Hinit. split; [done|].
  destruct (mount_spec _ _ _ Hinit) as [_ ->]. rewrite flush_spec.
  cbv zeta. case_bool_decide as Heq; do 2 eexists; (split; [done|]).
  - cbn in Heq |- *. congruence.
  - done.
Qed.

(** A theme cookie that is not valid percent-encoding makes the page
    load throw. *)
Lemma undecodable_cookie_throws w raw e :
  wf_jar (cookies w) -> jar_lookup THEME (cookies w) = Some raw ->
  decodeURIComponent raw = Raise e -> mount w = Throw e w.
Proof.
  intros Hwf Hc Hd. unfold mount, first_commit, bind.
  by rewrite init_effect_spec, Hc, Hd.
Qed.

Lemma init_cookie_theme w (t : ThemeCookie) :
  wf_jar (cookies w) -> jar_lookup THEME (cookies w) = Some (str t) ->
  init_effect w = resolve (Some (str t)) w.
Proof.
  intros Hwf Hc. rewrite init_effect_spec by done.
  by rewrite Hc, decode_theme, truthy_theme.
Qed.

Lemma init_no_cookie w :
  wf_jar (cookies w) -> jar_lookup THEME (cookies w) = None ->
  init_effect w = resolve (localStorage w !! THEME) w.
Proof. intros Hwf Hc. rewrite init_effect_spec by done. by rewrite Hc. Qed.

(** C1.  Initialization resolves the theme from the cookie, then the
    session-local store, then the OS signal.  A cookie value light or
    dark makes the state explicit with that value whatever the local
    store holds, and writes nothing; a cookie value system makes the
    state follow the OS signal whatever the local store holds, with
    hasUserPref false, and writes system to the cookie; without a cookie
    the local store decides in the same way, and a local store that is
    empty or holds system leads to the OS signal. *)
Theorem init_priority (w : World) :
  wf_jar (cookies w) ->
  (forall d : bool,
      jar_lookup THEME (cookies w) = Some (str (if d then dark else light)) ->
      initializes w d true false)
  /\ (jar_lookup THEME (cookies w) = Some (str system) ->
      initializes w (prefersDark w) false true)
  /\ (forall d : bool,
      jar_lookup THEME (cookies w) = None ->
      localStorage w !! THEME = Some (str (if d then dark else light)) ->
      initializes w d true false)
  /\ (jar_lookup THEME (cookies w) = None ->
      localStorage w !! THEME = None
      \/ localStorage w !! THEME = Some (str system) ->
      initializes w (prefersDark w) false true).
Proof.
  intros Hwf. split; [|split; [|split]].
  - intros d Hc. eapply resolve_initializes; [by apply init_cookie_theme|].
    by destruct d.
  - intros Hc. by eapply resolve_initializes; [by apply init_cookie_theme|].
  - intros d Hc Hl. eapply resolve_initializes; [by apply init_no_cookie|].
    rewrite Hl. by destruct d.
  - intros Hc Hl. eapply resolve_initializes; [by apply init_no_cookie|].
    by destruct Hl as [-> | ->].
Qed.

(** ** Events *)

Lemma dispatch_Toggle a w :
  dispatch Toggle a w
  = let new := mkState (negb (isDark (state a))) true in
    Return (mkApp new (if hasUserPref (state a) then listener a else Some true))
           (applied new w).
Proof.
  destruct a as [[d h] l]. unfold dispatch. rewrite flush_spec.
  by destruct d, h.
Qed.

Lemma dispatch_OSChange_explicit a w b :
  listener a = Some true ->
  dispatch (OSChange b) a w = Return a (with_prefersDark b w).
Proof.
  intros Hl. unfold dispatch, bind, modify. rewrite Hl, flush_spec.
  cbn. by rewrite bool_decide_eq_true_2.
Qed.

Lemma dispatch_OSChange_adaptive a w b :
  listener a = Some false -> hasUserPref (state a) = false ->
  dispatch (OSChange b) a w
  = if bool_decide (isDark (state a) = b) then Return a (with_prefersDark b w)
    else Return (mkApp (mkState b false) (Some false))
                (applied (mkState b false) (with_prefersDark b w)).
Proof.
  destruct a as [[d h] l]. cbn. intros -> ->.
  unfold dispatch, bind, modify. rewrite flush_spec.
  by destruct d, b.
Qed.

(** ** Settled pages *)

Lemma applied_cookie s w :
  jar_lookup THEME (cookies (applied s w)) = Some (str (themeValue s)).
Proof. apply jar_lookup_store. Qed.

Lemma applied_wf s w : wf_jar (cookies w) -> wf_jar (cookies (applied s w)).
Proof. apply wf_jar_store, wf_cookie_theme. Qed.

Lemma applied_localStorage s w :
  localStorage (applied s w) !! THEME
  = if hasUserPref s then Some (str (themeValue s)) else None.
Proof.
  cbn [applied localStorage]. destruct (hasUserPref s).
  - apply lookup_insert_eq.
  - apply lookup_delete_eq.
Qed.

Lemma applied_classList s w : DARK ∈ classList (applied s w) <-> isDark s = true.
Proof.
  cbn [applied classList]. destruct (isDark s).
  - rewrite elem_of_union, elem_of_singleton. by split; [|left].
  - rewrite elem_of_difference, elem_of_singleton. by split; [intros []|].
Qed.

Lemma init_effect_cases w q w1 :
  wf_jar (cookies w) -> init_effect w = Return q w1 ->
  exists d h, q = [SetIsDark d; SetHasUserPref h]
              /\ (h = false -> d = prefersDark w)
              /\ wf_jar (cookies w1) /\ prefersDark w1 = prefersDark w.
Proof.
  intros Hwf. rewrite init_effect_spec by done.
  assert (Hres : forall ct, resolve ct w = Return q w1 ->
    exists d h, q = [SetIsDark d; SetHasUserPref h]
                /\ (h = false -> d = prefersDark w)
                /\ wf_jar (cookies w1) /\ prefersDark w1 = prefersDark w).
  { intros ct. unfold resolve.
    destruct (strictEq ct DARK || strictEq ct LIGHT);
      intros Heq; injection Heq as <- <-.
    - by exists (strictEq ct DARK), true.
    - exists (prefersDark w), false. repeat split.
      apply wf_jar_store; [apply (wf_cookie_theme system) | done]. }
  destruct (jar_lookup THEME (cookies w)) as [raw|]; [|apply Hres].
  destruct (decodeURIComponent raw); [apply Hres | done].
Qed.

Lemma mount_settled w a w' :
  wf_jar (cookies w) -> mount w = Return a w' -> settled a w'.
Proof.
  intros Hwf Hm.
  destruct (init_effect w) as [q w1|e w1] eqn:Hinit;
    [|by unfold mount, first_commit, bind in Hm; rewrite Hinit in Hm].
  destruct (init_effect_cases _ _ _ Hwf Hinit) as (d & h & -> & Hd & Hwf1 & Hos).
  destruct (mount_spec _ _ _ Hinit) as [_ Hmount].
  rewrite Hmount, flush_spec in Hm. cbv zeta in Hm.
  case_bool_decide as Heq; injection Hm as <- <-; cbn in Heq.
  - injection Heq as -> ->. repeat split.
    + by apply applied_wf.
    + apply applied_cookie.
    + apply applied_localStorage.
    + intros _. cbn. by rewrite Hos, <- Hd.
  - unfold settled. cbn [state listener].
    rewrite applied_cookie, applied_localStorage. repeat split.
    + by do 2 apply applied_wf.
    + by destruct h.
    + cbn. intros ->. by rewrite Hos, <- Hd.
Qed.

Lemma dispatch_settled e a w :
  settled a w -> exists a' w', dispatch e a w = Return a' w' /\ settled a' w'.
Proof.
  intros (Hwf & Hl & Hc & Hs & Hos). destruct e as [|b].
  - rewrite dispatch_Toggle. cbv zeta. do 2 eexists. split; [done|].
    unfold settled. cbn [state listener].
    rewrite applied_cookie, applied_localStorage. repeat split.
    + by apply applied_wf.
    + rewrite Hl. by destruct (hasUserPref (state a)).
    + done.
  - destruct (hasUserPref (state a)) eqn:Hh.
    + rewrite dispatch_OSChange_explicit by done. do 2 eexists. split; [done|].
      unfold settled. rewrite Hh. by repeat split.
    + rewrite dispatch_OSChange_adaptive by done.
      case_bool_decide as Hb; do 2 eexists; (split; [done|]).
      * unfold settled. rewrite Hh. by repeat split.
      * unfold settled. cbn [state listener].
        rewrite applied_cookie, applied_localStorage. repeat split.
        by apply applied_wf.
Qed.

Lemma run_settled es a w :
  settled a w -> exists a' w', run es a w = Return a' w' /\ settled a' w'.
Proof.
  revert a w. induction es as [|e es IH]; intros a w Hs.
  - by do 2 eexists.
  - destruct (dispatch_settled e _ _ Hs) as (a1 & w1 & He & Hs1).
    destruct (IH _ _ Hs1) as (a2 & w2 & Hr & Hs2).
    exists a2, w2. split; [|done]. cbn [run]. unfold bind. by rewrite He.
Qed.

Lemma Reachable_settled a w : Reachable a w -> settled a w.
Proof.
  induction 1 as [w a w' Hwf Hm | e a w a' w' _ IH He].
  - by eapply mount_settled.
  - destruct (dispatch_settled e _ _ IH) as (a1 & w1 & He1 & Hs).
    rewrite He in He1. by injection He1 as <- <-.
Qed.

(** ** The storage invariant *)

Lemma getCookie_theme w (t : ThemeCookie) :
  wf_jar (cookies w) -> jar_lookup THEME (cookies w) = Some (str t) ->
  getCookie THEME w = Return (Some (str t)) w.
Proof.
  intros Hwf Hc. rewrite getCookie_spec by auto using THEME_no_equals.
  by rewrite Hc, decode_theme.
Qed.

Lemma stores_consistent s w :
  wf_jar (cookies w) ->
  jar_lookup THEME (cookies w) = Some (str (themeValue s)) ->
  localStorage w !! THEME
  = (if hasUserPref s then Some (str (themeValue s)) else None) ->
  storage_consistent s w.
Proof.
  intros Hwf Hc Hl. pose proof (getCookie_theme _ _ Hwf Hc) as Hg.
  destruct s as [d h]. unfold themeValue in *. cbn [hasUserPref isDark] in *.
  destruct h; split.
  - split; [intros _ | done].
    exists (if d then dark else light). by destruct d; auto.
  - done.
  - split; [done|]. intros (t & Ht & Hg' & _). rewrite Hg in Hg'.
    by destruct Ht as [-> | ->].
  - done.
Qed.

Lemma settled_invariant a w : settled a w -> invariant (state a) w.
Proof.
  intros (Hwf & _ & Hc & Hl & Hos). split; [|done]. by apply stores_consistent.
Qed.

(** C2 as stated fails at the first apply step of a page load: it runs
    with the initial state, so with an OS signal of dark the state has
    hasUserPref false and isDark false while the OS signal is true. *)
Lemma first_apply_step_misses_os :
  let w := mkWorld [] ∅ ∅ 0 true ∅ in
  let q := [SetIsDark true; SetHasUserPref false] in
  let w0 := written THEME SYSTEM days_default w in
  let w1 := applied initial_state w0 in
  init_effect w = Return q w0
  /\ apply_effect initial_state w0 = Return tt w1
  /\ first_commit w = Return (mkApp initial_state (Some false), q) w1
  /\ ~ invariant initial_state w1.
Proof.
  cbv zeta. split; [by vm_compute|]. split; [by vm_compute|].
  split; [by vm_compute|]. intros [_ Hos]. by specialize (Hos eq_refl).
Qed.

(** C2, amended.  Every apply step leaves the two stores consistent with
    the hasUserPref it ran with: hasUserPref is true iff the cookie
    reads light or dark and the session-local store holds the same
    value, and when it is false the cookie reads system and the
    session-local store is empty.  In every state a session reaches once
    the page load has settled, isDark moreover equals the OS signal
    whenever hasUserPref is false. *)
Theorem apply_step_invariant :
  (forall s w, wf_jar (cookies w) ->
     exists w', apply_effect s w = Return tt w' /\ storage_consistent s w')
  /\ (forall a w, Reachable a w -> invariant (state a) w).
Proof.
  split.
  - intros s w Hwf. exists (applied s w). split; [apply apply_effect_applied|].
    apply stores_consistent;
      auto using applied_wf, applied_cookie, applied_localStorage.
  - intros a w Hr. by apply settled_invariant, Reachable_settled.
Qed.

(** C3.  The apply step sets the document-wide class dark to isDark;
    with hasUserPref true it writes light or dark, as isDark says, to the
    session-local store and to the cookie; with hasUserPref false it
    writes system to the cookie and removes the theme key of the
    session-local store.  It runs in the first commit, after the
    initialization effect, and in the commit of every render whose state
    differs from the one before. *)
Theorem apply_step_writes (s : ThemeState) (w : World) :
  (exists w', apply_effect s w = Return tt w'
     /\ (DARK ∈ classList w' <-> isDark s = true)
     /\ (hasUserPref s = true ->
         let val := if isDark s then DARK else LIGHT in
         localStorage w' = <[THEME := val]> (localStorage w)
         /\ cookies w' = store THEME val (cookies w)
         /\ jar_lookup THEME (cookies w') = Some val)
     /\ (hasUserPref s = false ->
         localStorage w' = delete THEME (localStorage w)
         /\ cookies w' = store THEME SYSTEM (cookies w)
         /\ jar_lookup THEME (cookies w') = Some SYSTEM))
  /\ (forall q w0, init_effect w = Return q w0 ->
        exists a w1, apply_effect initial_state w0 = Return tt w1
                     /\ first_commit w = Return (a, q) w1)
  /\ (forall q a, reduce (state a) q = s -> s <> state a ->
        exists a' w', apply_effect s w = Return tt w'
                      /\ flush q a w = Return a' w' /\ state a' = s).
Proof.
  split; [|split].
  - exists (applied s w). split; [apply apply_effect_applied|].
    split; [apply applied_classList|].
    destruct s as [d h]. split; intros Hh; cbn in Hh; subst h.
    + destruct d; repeat split; apply jar_lookup_store.
    + repeat split. apply jar_lookup_store.
  - intros q w0 Hinit. destruct (mount_spec _ _ _ Hinit) as [Hfc _].
    do 2 eexists. split; [apply apply_effect_applied | exact Hfc].
  - intros q a Hq Hne. do 2 eexists. split; [apply apply_effect_applied|].
    rewrite flush_spec. cbv zeta. rewrite Hq.
    by rewrite bool_decide_eq_false_2.
Qed.

(** ** Malformed stored values *)

(** C4 as stated fails.  With the cookie theme=purple and the
    session-local value dark the page comes up adaptive, following the
    OS signal, whereas without the cookie it comes up explicit and dark:
    the malformed cookie is not treated as absent.  A cookie value that
    is not valid percent-encoding makes the page load throw. *)
Lemma malformed_cookie_not_absent :
  let w := mkWorld [(THEME, lit "purple")] {[THEME := DARK]} ∅ 0 false ∅ in
  malformed (lit "purple")
  /\ mounted_state w = Some (mkState false false)
  /\ mounted_state (with_cookies [] w) = Some (mkState true true)
  /\ mounted_state w <> mounted_state (with_cookies [] w)
  /\ mounted_state (with_cookies [(THEME, lit "%")] w) = None.
Proof.
  cbv zeta. split; [by_computation|]. by vm_compute.
Qed.

(** C4, amended.  A stored value other than light and dark never makes
    the state explicit.  A cookie value that percent-decodes to a
    non-empty string other than light and dark is handled like system,
    not like an absent cookie: it takes priority over the session-local
    store, and the state follows the OS signal with hasUserPref false
    and the cookie rewritten to system.  An empty cookie value falls
    through to the session-local store like an absent cookie.  With the
    cookie absent or empty, a session-local store that is empty or holds
    a value other than light and dark leads to the OS signal as well. *)
Theorem malformed_value_is_adaptive (w : World) :
  wf_jar (cookies w) ->
  (forall raw v,
      jar_lookup THEME (cookies w) = Some raw ->
      decodeURIComponent raw = Ok v ->
      v <> [] -> v <> str light -> v <> str dark ->
      initializes w (prefersDark w) false true)
  /\ (forall d : bool,
      jar_lookup THEME (cookies w) = Some [] ->
      localStorage w !! THEME = Some (str (if d then dark else light)) ->
      initializes w d true false)
  /\ (forall lv : option jsstring,
      jar_lookup THEME (cookies w) = None
      \/ jar_lookup THEME (cookies w) = Some [] ->
      localStorage w !! THEME = lv ->
      lv <> Some (str light) -> lv <> Some (str dark) ->
      initializes w (prefersDark w) false true).
Proof.
  intros Hwf. pose proof (init_effect_spec w Hwf) as Hinit.
  assert (Hadaptive : forall ct,
    ct <> Some (str light) -> ct <> Some (str dark) ->
    resolve ct w
    = Return [SetIsDark (prefersDark w); SetHasUserPref false]
             (written THEME SYSTEM days_default w)).
  { intros ct Hl Hd. unfold resolve, strictEq, DARK, LIGHT.
    by rewrite !bool_decide_eq_false_2 by done. }
  split; [|split].
  - intros raw v Hc Hdec Hne Hl Hd. rewrite Hc, Hdec in Hinit.
    destruct v as [|c v]; [done|]. cbn [truthy] in Hinit.
    eapply resolve_initializes; [done|]. apply Hadaptive; congruence.
  - intros d Hc Hl. rewrite Hc in Hinit.
    change (decodeURIComponent []) with (@Ok jsstring []) in Hinit.
    cbn [truthy] in Hinit. rewrite Hl in Hinit.
    eapply resolve_initializes; [done|]. by destruct d.
  - intros lv Hc Hl Hnl Hnd.
    assert (init_effect w = resolve lv w) as Hinit'.
    { destruct Hc as [Hc | Hc]; rewrite Hc in Hinit; by rewrite <- Hl. }
    eapply resolve_initializes; [done|]. by apply Hadaptive.
Qed.

(** ** toggleTheme *)

(** C5.  toggleTheme needs no precondition; it sets hasUserPref and
    flips isDark.  After two calls in a row, in one batch or in two
    events, isDark is back at its original value and hasUserPref is true
    after each of them; from Explicit(isDark = false) two calls give
    Explicit(isDark = false). *)
Theorem toggle_twice (a : App) (w : World) :
  reduce (state a) toggleTheme = mkState (negb (isDark (state a))) true
  /\ reduce (state a) (toggleTheme ++ toggleTheme)
     = mkState (isDark (state a)) true
  /\ exists a1 w1 a2 w2,
      dispatch Toggle a w = Return a1 w1
      /\ state a1 = mkState (negb (isDark (state a))) true
      /\ dispatch Toggle a1 w1 = Return a2 w2
      /\ state a2 = mkState (isDark (state a)) true.
Proof.
  split; [done|]. split; [cbn; by rewrite negb_involutive|]. do 4 eexists.
  split; [apply dispatch_Toggle|]. split; [done|].
  split; [apply dispatch_Toggle|]. cbn. by rewrite negb_involutive.
Qed.

(** ** After a toggle *)

Lemma afterToggles_os_only es d :
  Forall (fun e => e <> Toggle) es -> afterToggles es d = d.
Proof.
  induction 1 as [|e es He _ IH]; [done|]. by destruct e.
Qed.

Lemma explicit_run es a w :
  settled a w -> hasUserPref (state a) = true ->
  exists a' w', run es a w = Return a' w' /\ settled a' w'
                /\ hasUserPref (state a') = true
                /\ isDark (state a') = afterToggles es (isDark (state a)).
Proof.
  revert a w. induction es as [|e es IH]; intros a w Hs Hh.
  - by do 2 eexists.
  - destruct (dispatch_settled e _ _ Hs) as (a1 & w1 & He & Hs1).
    assert (hasUserPref (state a1) = true
            /\ afterToggles (e :: es) (isDark (state a))
               = afterToggles es (isDark (state a1))) as [Hh1 Hd].
    { destruct Hs as (_ & Hl & _). rewrite Hh in Hl. destruct e as [|b].
      - rewrite dispatch_Toggle in He. by injection He as <- <-.
      - rewrite dispatch_OSChange_explicit in He by done.
        by injection He as <- <-. }
    destruct (IH _ _ Hs1 Hh1) as (a2 & w2 & Hr & Hs2 & Hh2 & Hd2).
    exists a2, w2. cbn [run]. unfold bind. rewrite He, Hd. auto.
Qed.

(** C6.  Once toggleTheme has been called the state is frozen against
    the OS: a change of the OS signal leaves the component as it is,
    and whatever events follow, hasUserPref stays true and isDark only
    changes by further toggles; in particular it stays as it is when
    only OS changes follow. *)
Theorem explicit_is_frozen (a : App) (w : World) (a1 : App) (w1 : World) :
  Reachable a w -> dispatch Toggle a w = Return a1 w1 ->
  hasUserPref (state a1) = true
  /\ (forall b, dispatch (OSChange b) a1 w1 = Return a1 (with_prefersDark b w1))
  /\ (forall es, exists a2 w2,
         run es a1 w1 = Return a2 w2
         /\ hasUserPref (state a2) = true
         /\ isDark (state a2) = afterToggles es (isDark (state a1))
         /\ (Forall (fun e => e <> Toggle) es ->
             isDark (state a2) = isDark (state a1))).
Proof.
  intros Hr Ht.
  assert (Hs1 : settled a1 w1)
    by (eapply Reachable_settled, Reachable_dispatch; eassumption).
  assert (Hh : hasUserPref (state a1) = true)
    by (rewrite dispatch_Toggle in Ht; by injection Ht as <- <-).
  split; [done|]. split.
  - intros b. apply dispatch_OSChange_explicit.
    destruct Hs1 as (_ & Hl & _). by rewrite Hl, Hh.
  - intros es. destruct (explicit_run es _ _ Hs1 Hh) as (a2 & w2 & Hrun & _ & Hh2 & Hd).
    exists a2, w2. repeat split; try done.
    intros Hos. by rewrite Hd, afterToggles_os_only.
Qed.

(** ** Following the OS *)

(** C7.  While hasUserPref is false, a change of the OS signal to a
    value other than the current isDark sets isDark to it and runs the
    apply step: the cookie then reads system, not light or dark, and the
    session-local store has no theme.  In particular a change from light
    to dark gives isDark = true. *)
Theorem adaptive_tracks_os (a : App) (w : World) (b : bool) :
  Reachable a w -> hasUserPref (state a) = false -> isDark (state a) = negb b ->
  exists a' w',
    dispatch (OSChange b) a w = Return a' w'
    /\ state a' = mkState b false
    /\ apply_effect (state a') (with_prefersDark b w) = Return tt w'
    /\ cookies w' = store THEME SYSTEM (cookies w)
    /\ getCookie THEME w' = Return (Some SYSTEM) w'
    /\ localStorage w' !! THEME = None
    /\ (DARK ∈ classList w' <-> b = true).
Proof.
  intros Hr Hh Hd. destruct (Reachable_settled _ _ Hr) as (Hwf & Hl & _).
  rewrite Hh in Hl. rewrite dispatch_OSChange_adaptive by done.
  rewrite bool_decide_eq_false_2 by (rewrite Hd; by destruct b).
  do 2 eexists. split; [done|]. split; [done|].
  split; [apply apply_effect_applied|]. split; [done|].
  split; [|split].
  - apply (getCookie_theme _ system); [by apply applied_wf|].
    apply applied_cookie.
  - apply applied_localStorage.
  - apply applied_classList.
Qed.

(** ** Reload *)

(** C8.  Persist, then reload.  A page loaded without stored state comes
    up following the OS signal; after one toggle the state is explicit
    with the opposite value and both stores hold it; a page load on any
    browser with these two stores, whatever its OS signal, comes up in
    that same explicit state, and its initialization writes nothing. *)
Theorem reload_restores_explicit (w : World) (a : App) (w1 : World)
    (a2 : App) (w2 wr : World) :
  wf_jar (cookies w) ->
  jar_lookup THEME (cookies w) = None -> localStorage w !! THEME = None ->
  mount w = Return a w1 -> dispatch Toggle a w1 = Return a2 w2 ->
  cookies wr = cookies w2 -> localStorage wr = localStorage w2 ->
  state a = mkState (prefersDark w) false
  /\ state a2 = mkState (negb (prefersDark w)) true
  /\ getCookie THEME w2 = Return (Some (str (themeValue (state a2)))) w2
  /\ localStorage w2 !! THEME = Some (str (themeValue (state a2)))
  /\ init_effect wr
     = Return [SetIsDark (isDark (state a2)); SetHasUserPref true] wr
  /\ exists a3 w3, mount wr = Return a3 w3 /\ state a3 = state a2.
Proof.
  intros Hwf Hc Hl Hm Ht Hcr Hlr.
  assert (Hfirst : initializes w (prefersDark w) false true).
  { eapply resolve_initializes; [by apply init_no_cookie|]. by rewrite Hl. }
  destruct Hfirst as (_ & a' & w' & Hm' & Ha).
  rewrite Hm in Hm'. injection Hm' as <- <-.
  pose proof (mount_settled _ _ _ Hwf Hm) as Hs.
  destruct (dispatch_settled Toggle _ _ Hs) as (a2' & w2' & Ht' & Hs2).
  rewrite Ht in Ht'. injection Ht' as <- <-.
  rewrite dispatch_Toggle in Ht. cbv zeta in Ht. injection Ht as Ha2 Hw2.
  rewrite Ha in Ha2. cbn [isDark] in Ha2.
  assert (Hst : state a2 = mkState (negb (prefersDark w)) true)
    by by rewrite <- Ha2.
  destruct Hs2 as (Hwf2 & _ & Hc2 & Hl2 & _).
  rewrite Hst in Hc2, Hl2 |- *. unfold themeValue in *.
  cbn [hasUserPref isDark] in *.
  split; [done|]. split; [done|].
  split; [by apply getCookie_theme|]. split; [done|].
  rewrite <- Hcr in Hwf2, Hc2. rewrite <- Hlr in Hl2.
  assert (Hagain : initializes wr (negb (prefersDark w)) true false).
  { eapply resolve_initializes; [by apply init_cookie_theme|].
    by destruct (prefersDark w). }
  destruct Hagain as (Hinit & a3 & w3 & Hm3 & Ha3).
  split; [done|]. by exists a3, w3.
Qed.

(** ** Cookie round trip *)

(** C9.  For every theme value v, setCookie('theme', v) writes a cookie
    named theme whose value is the percent-encoded v, and the browser
    receives it with three attributes: an expiry 365 days after the
    current time, the path / and SameSite=Lax; after that
    getCookie('theme') percent-decodes the stored value and returns v. *)
Theorem cookie_roundtrip (v : ThemeCookie) (w : World) :
  wf_jar (cookies w) ->
  exists encoded w',
    encodeURIComponent (str v) = Ok encoded
    /\ setCookie THEME (str v) days_default w = Return tt w'
    /\ jar_lookup THEME (cookies w') = Some encoded
    /\ attributes w' !! THEME
       = Some [(lit "expires", toUTCString (now w + 365 * msPerDay));
               (lit "path", lit "/");
               (lit "SameSite", lit "Lax")]
    /\ decodeURIComponent encoded = Ok (str v)
    /\ getCookie THEME w' = Return (Some (str v)) w'.
Proof.
  intros Hwf. exists (str v), (written THEME (str v) days_default w).
  split; [apply encode_theme|].
  split; [apply setCookie_theme|]. split; [apply jar_lookup_store|].
  split; [apply lookup_insert_eq|].
  split; [apply decode_theme|].
  apply getCookie_theme.
  - apply wf_jar_store; [apply wf_cookie_theme | done].
  - apply jar_lookup_store.
Qed.

(** ** The first render *)

(** C10.  Before initialization has run the state is isDark = false,
    hasUserPref = false: the first render of a page load, and the apply
    step of its commit, are light whatever the stores and the OS signal
    hold; the setter calls of the initialization only take effect in the
    render after it. *)
Theorem first_render_is_light (w : World) :
  initial_state = mkState false false
  /\ forall q w0, init_effect w = Return q w0 ->
       exists w1,
         first_commit w = Return (mkApp initial_state (Some false), q) w1
         /\ (DARK ∉ classList w1)
         /\ exists a w',
              mount w = Return a w'
              /\ flush q (mkApp initial_state (Some false)) w1 = Return a w'
              /\ state a = reduce initial_state q.
Proof.
  split; [done|]. intros q w0 Hinit.
  destruct (mount_spec _ _ _ Hinit) as [Hfc Hm].
  exists (applied initial_state w0). split; [done|]. split.
  { rewrite applied_classList. done. }
  rewrite Hm, flush_spec. cbv zeta. cbn [state].
  case_bool_decide as Heq; do 2 eexists; by repeat split.
Qed.

(** ** Runs on concrete browsers *)

(** Loading a fresh page, and one click on it. *)
Lemma fresh_mount os :
  mount (fresh_world os) = Return (fresh_app os) (fresh_loaded os).
Proof. by destruct os; vm_compute. Defined.

Lemma fresh_toggle :
  dispatch Toggle (fresh_app false) (fresh_loaded false)
  = Return toggled_app toggled_world.
Proof. by vm_compute. Defined.

Lemma fresh_reachable os : Reachable (fresh_app os) (fresh_loaded os).
Proof.
  apply (Reachable_mount (fresh_world os)); [by_computation|].
  apply fresh_mount.
Defined.

(** [init_priority] on a browser whose cookie says dark and whose
    session-local store says light: the cookie wins. *)
Lemma init_priority_witness :
  wf_jar (cookies stored_world) /\ initializes stored_world true true false.
Proof.
  assert (Hwf : wf_jar (cookies stored_world)) by by_computation.
  split; [exact Hwf|].
  exact (proj1 (init_priority stored_world Hwf) true eq_refl).
Defined.

(** [malformed_value_is_adaptive] on the cookie theme=purple. *)
Lemma malformed_value_is_adaptive_witness :
  wf_jar (cookies purple_world) /\ initializes purple_world true false true.
Proof.
  assert (Hwf : wf_jar (cookies purple_world)) by by_computation.
  split; [exact Hwf|].
  refine (proj1 (malformed_value_is_adaptive purple_world Hwf)
            (lit "purple") (lit "purple") eq_refl eq_refl _ _ _);
    by_computation.
Defined.

(** [explicit_is_frozen] on a fresh page: one toggle, then three OS
    changes. *)
Lemma explicit_is_frozen_witness :
  Reachable (fresh_app false) (fresh_loaded false)
  /\ dispatch Toggle (fresh_app false) (fresh_loaded false)
     = Return toggled_app toggled_world
  /\ exists a2 w2,
       run [OSChange false; OSChange true; OSChange false]
           toggled_app toggled_world = Return a2 w2
       /\ hasUserPref (state a2) = true /\ isDark (state a2) = true.
Proof.
  split; [exact (fresh_reachable false)|]. split; [exact fresh_toggle|].
  pose proof (explicit_is_frozen (fresh_app false) (fresh_loaded false)
                toggled_app toggled_world (fresh_reachable false) fresh_toggle)
    as (_ & _ & Hrun).
  destruct (Hrun [OSChange false; OSChange true; OSChange false])
    as (a2 & w2 & Hr & Hh & Hd & _).
  exists a2, w2. split; [exact Hr|]. split; [exact Hh|]. exact Hd.
Defined.

(** [adaptive_tracks_os] on a fresh page whose OS turns dark. *)
Lemma adaptive_tracks_os_witness :
  Reachable (fresh_app false) (fresh_loaded false)
  /\ hasUserPref (state (fresh_app false)) = false
  /\ isDark (state (fresh_app false)) = negb true
  /\ exists a' w',
       dispatch (OSChange true) (fresh_app false) (fresh_loaded false)
       = Return a' w'
       /\ state a' = mkState true false
       /\ getCookie THEME w' = Return (Some SYSTEM) w'
       /\ localStorage w' !! THEME = None.
Proof.
  split; [exact (fresh_reachable false)|]. split; [reflexivity|].
  split; [reflexivity|].
  pose proof (adaptive_tracks_os (fresh_app false) (fresh_loaded false) true
                (fresh_reachable false) eq_refl eq_refl)
    as (a' & w' & Hd & Hs & _ & _ & Hc & Hl & _).
  exists a', w'. split; [exact Hd|]. split; [exact Hs|].
  split; [exact Hc | exact Hl].
Defined.

(** [reload_restores_explicit]: fresh page, one toggle, a later visit. *)
Lemma reload_restores_explicit_witness :
  wf_jar (cookies (fresh_world false))
  /\ jar_lookup THEME (cookies (fresh_world false)) = None
  /\ localStorage (fresh_world false) !! THEME = None
  /\ mount (fresh_world false) = Return (fresh_app false) (fresh_loaded false)
  /\ dispatch Toggle (fresh_app false) (fresh_loaded false)
     = Return toggled_app toggled_world
  /\ exists a3 w3,
       mount reloaded_world = Return a3 w3 /\ state a3 = state toggled_app.
Proof.
  assert (Hwf : wf_jar (cookies (fresh_world false))) by by_computation.
  assert (Hc : jar_lookup THEME (cookies (fresh_world false)) = None)
    by reflexivity.
  assert (Hl : localStorage (fresh_world false) !! THEME = None)
    by reflexivity.
  assert (Hcr : cookies reloaded_world = cookies toggled_world) by reflexivity.
  assert (Hlr : localStorage reloaded_world = localStorage toggled_world)
    by reflexivity.
  split; [exact Hwf|]. split; [exact Hc|]. split; [exact Hl|].
  split; [exact (fresh_mount false)|]. split; [exact fresh_toggle|].
  pose proof (reload_restores_explicit (fresh_world false) (fresh_app false)
                (fresh_loaded false) toggled_app toggled_world reloaded_world
                Hwf Hc Hl (fresh_mount false) fresh_toggle Hcr Hlr)
    as (_ & _ & _ & _ & _ & Hreload).
  exact Hreload.
Defined.

(** [cookie_roundtrip] for light, over a jar that holds other cookies. *)
Lemma cookie_roundtrip_witness :
  wf_jar (cookies stored_world)
  /\ exists encoded w',
       encodeURIComponent (str light) = Ok encoded
       /\ setCookie THEME (str light) days_default stored_world = Return tt w'
       /\ attributes w' !! THEME
          = Some [(lit "expires", lit "Tue, 02 Nov 2027 04:10:00 GMT");
                  (lit "path", lit "/");
                  (lit "SameSite", lit "Lax")]
       /\ getCookie THEME w' = Return (Some (str light)) w'.
Proof.
  assert (Hwf : wf_jar (cookies stored_world)) by by_computation.
  split; [exact Hwf|].
  pose proof (cookie_roundtrip light stored_world Hwf)
    as (encoded & w' & He & Hs & _ & Ha & _ & Hg).
  exists encoded, w'. split; [exact He|]. split; [exact Hs|].
  split; [|exact Hg]. rewrite Ha. by vm_compute.
Defined.

(** ** Further properties of the code *)

(** *** Percent-encoding of arbitrary text *)

Lemma allFrom_spec n c p :
  allFrom n c p = true -> forall x, c <= x < c + N.of_nat n -> p x = true.
Proof.
  revert c. induction n as [|n IH]; intros c Hall x Hx; [lia|].
  cbn [allFrom] in Hall. apply andb_prop in Hall as [Hc Hrest].
  destruct (N.eq_dec x c) as [->|Hne]; [done|].
  apply (IH _ Hrest). lia.
Qed.

Lemma hex_check : allFrom (N.to_nat 256) 0 hexOK = true.
Proof. by vm_compute. Qed.

Lemma bmp_check : allFrom (N.to_nat 65536) 0 unitOK = true.
Proof. by vm_compute. Qed.

Lemma hi_check : allFrom (N.to_nat 256) 16 hiOK = true.
Proof. by vm_compute. Qed.

Lemma lo_check : allFrom (N.to_nat 4096) 0 loOK = true.
Proof. by vm_compute. Qed.

Lemma hexOK_all b : b < 256 -> hexOK b = true.
Proof. intros Hb. apply (allFrom_spec _ _ _ hex_check). lia. Qed.





Lemma unescaped_not_surrogate c :
  uriUnescaped c = true -> isLeadSurrogate c = false /\ isTrailSurrogate c = false.
Proof.
  intros Hc. unfold isLeadSurrogate, isTrailSurrogate, between.
  destruct (N.leb_spec 0xD800 c) as [Hge|]; [|by destruct (N.leb_spec 0xDC00 c); [lia|]].
  exfalso. unfold uriUnescaped, between in Hc.
  repeat match type of Hc with
  | context [?a <=? ?b] => destruct (N.leb_spec a b); try lia
  end.
  cbn in Hc. apply bool_decide_eq_true in Hc.
  repeat (apply elem_of_cons in Hc as [->|Hc]; [lia|]).
  by apply elem_of_nil in Hc.
Qed.

Lemma encode_wellFormed s :
  wellFormed s = true <-> exists e, encodeURIComponent s = Ok e.
Proof.
  remember (length s) as n eqn:Hn. revert s Hn.
  induction n as [n IH] using lt_wf_ind. intros s ->.
  destruct s as [|c t]; [split; eauto|].
  cbn [wellFormed encodeURIComponent].
  assert (Hrmap : forall (f : jsstring -> jsstring) r,
             (exists e, rmap f r = Ok e) <-> exists e, r = Ok e).
  { intros f [a|err]; cbn; split; intros [e He]; eauto; done. }
  destruct (uriUnescaped c) eqn:Hu.
  - destruct (unescaped_not_surrogate c Hu) as [-> ->]. cbn [negb andb].
    rewrite Hrmap. apply (IH (length t)); [cbn; lia | done].
  - destruct (isLeadSurrogate c).
    + destruct t as [|d t']; [split; [done | intros [e He]; done]|].
      destruct (isTrailSurrogate d); cbn [andb].
      * rewrite Hrmap. apply (IH (length t')); [cbn; lia | done].
      * split; [done | intros [e He]; done].
    + destruct (isTrailSurrogate c); cbn [negb andb].
      * split; [done | intros [e He]; done].
      * rewrite Hrmap. apply (IH (length t)); [cbn; lia | done].
Qed.

Lemma forallb_octet bs : forallb octet bs = true -> Forall (fun b => b < 256) bs.
Proof.
  induction bs as [|b bs IH]; [by constructor|]. cbn [forallb].
  intros [Hb Hbs]%andb_prop. constructor; [by apply N.ltb_lt | by apply IH].
Qed.

Lemma unitOK_all c : c < 65536 -> unitOK c = true.
Proof. intros Hc. apply (allFrom_spec _ _ _ bmp_check). lia. Qed.

(** The octets of a code point of the basic plane. *)
Lemma bmp_octets c :
  c < 65536 -> isLeadSurrogate c = false -> isTrailSurrogate c = false ->
  Forall (fun b => b < 256) (utf8Encode c)
  /\ ((c < 0x80 /\ utf8Encode c = [c])
      \/ ((2 <= length (utf8Encode c) <= 4)%nat
          /\ leadingOnes (hd 0 (utf8Encode c)) = length (utf8Encode c)
          /\ utf8Decode (utf8Encode c) = Some c
          /\ utf16Encode c = [c])).
Proof.
  intros Hc Hl Ht. pose proof (unitOK_all c Hc) as Hok.
  unfold unitOK in Hok. rewrite Hl, Ht in Hok. cbn [orb] in Hok.
  apply andb_prop in Hok as [Hoct H16]. unfold octetsOK in Hoct.
  apply andb_prop in Hoct as [Hbytes Hoct]. apply forallb_octet in Hbytes.
  split; [done|].
  destruct (utf16Encode c) as [|x [|y l]]; try done.
  apply N.eqb_eq in H16. subst x.
  destruct (utf8Encode c) as [|b [|b1 bs]] eqn:Henc; [done| |].
  - left. apply andb_prop in Hoct as [Hlead Hb]. apply N.eqb_eq in Hb as ->.
    split; [|done]. apply Nat.eqb_eq in Hlead. unfold leadingOnes in Hlead.
    destruct (N.ltb_spec c 0x80); [done|].
    by repeat (destruct (_ <? _) in Hlead; try done).
  - right. apply andb_prop in Hoct as [[Hlead Hlen]%andb_prop Hdec].
    apply Nat.eqb_eq in Hlead. apply Nat.leb_le in Hlen.
    destruct (utf8Decode (b :: b1 :: bs)) as [cp'|]; [|done].
    apply N.eqb_eq in Hdec as ->. cbn [length hd] in *. repeat split; try done; lia.
Qed.


Lemma hiOK_all hi : 16 <= hi < 272 -> hiOK hi = true.
Proof. intros Hc. apply (allFrom_spec _ _ _ hi_check). lia. Qed.

Lemma loOK_all lo : lo < 4096 -> loOK lo = true.
Proof. intros Hc. apply (allFrom_spec _ _ _ lo_check). lia. Qed.

(** The four octets of a supplementary code point. *)
Lemma supplementary_octets cp :
  0x10000 <= cp <= 0x10FFFF ->
  Forall (fun b => b < 256) (utf8Encode cp)
  /\ length (utf8Encode cp) = 4%nat
  /\ leadingOnes (hd 0 (utf8Encode cp)) = 4%nat
  /\ utf8Decode (utf8Encode cp) = Some cp.
Proof.
  intros Hcp. unfold utf8Encode.
  destruct (N.ltb_spec cp 0x80) as [|_]; [lia|].
  destruct (N.ltb_spec cp 0x800) as [|_]; [lia|].
  destruct (N.ltb_spec cp 0x10000) as [|_]; [lia|].
  set (hi := N.shiftr cp 12). set (lo := N.land cp 0xFFF).
  assert (Hhi : 16 <= hi < 272).
  { unfold hi. rewrite N.shiftr_div_pow2. change (2 ^ 12) with 4096. split.
    - apply N.div_le_lower_bound; lia.
    - apply N.Div0.div_lt_upper_bound; lia. }
  assert (Hlo : lo < 4096).
  { unfold lo. change 0xFFF with (N.ones 12). rewrite N.land_ones.
    apply N.mod_lt. by vm_compute. }
  assert (E18 : N.shiftr cp 18 = N.shiftr hi 6).
  { unfold hi. by rewrite N.shiftr_shiftr. }
  assert (E6 : N.land (N.shiftr cp 6) 0x3F = N.shiftr lo 6).
  { unfold lo. by rewrite N.shiftr_land. }
  assert (E0 : N.land cp 0x3F = N.land lo 0x3F).
  { unfold lo. by rewrite <- N.land_assoc. }
  assert (Hcat : N.lor (N.shiftl hi 12) lo = cp).
  { unfold hi, lo. change 0xFFF with (N.ones 12).
    by rewrite <- N.ldiff_ones_r, N.lor_ldiff_and. }
  fold hi. rewrite E18, E6, E0.
  pose proof (hiOK_all hi Hhi) as Hh. pose proof (loOK_all lo Hlo) as Hl.
  unfold hiOK in Hh. unfold loOK in Hl. cbv zeta in Hh, Hl.
  repeat match goal with
         | H : _ && _ = true |- _ => apply andb_prop in H as [? ?]
         end.
  repeat match goal with
         | H : octet _ = true |- _ => apply N.ltb_lt in H
         | H : Nat.eqb _ _ = true |- _ => apply Nat.eqb_eq in H
         | H : (_ =? _) = true |- _ => apply N.eqb_eq in H
         end.
  split; [by repeat constructor|]. split; [done|]. split; [done|].
  unfold utf8Decode.
  repeat match goal with
         | H : isContinuation _ = true |- _ => rewrite H; clear H
         end.
  cbn [andb].
  match goal with
  | |- context [N.lor ?a (N.lor ?b ?c)] =>
    replace (N.lor a (N.lor b c)) with cp
  end.
  - destruct (N.leb_spec 0x10000 cp); [|lia].
    by destruct (N.leb_spec cp 0x10FFFF); [|lia].
  - match goal with H : N.lor (N.shiftl _ 6) _ = _ |- _ => rewrite H end.
    rewrite N.lor_assoc.
    match goal with H : N.lor (N.shiftl _ 18) _ = _ |- _ => rewrite H end.
    done.
Qed.

Lemma pair_range c d :
  isLeadSurrogate c = true -> isTrailSurrogate d = true ->
  0xD800 <= c <= 0xDBFF /\ 0xDC00 <= d <= 0xDFFF.
Proof.
  unfold isLeadSurrogate, isTrailSurrogate, between.
  intros [?%N.leb_le ?%N.leb_le]%andb_prop [?%N.leb_le ?%N.leb_le]%andb_prop. lia.
Qed.






Lemma pctOctet_plain b : b < 256 -> Forall plain (pctOctet b).
Proof.
  intros Hb. pose proof (hexOK_all b Hb) as H. unfold hexOK in H.
  destruct (parseHexOctet _ _); [|done].
  apply andb_prop in H as [[_ H1]%andb_prop H2].
  unfold pctOctet. constructor; [by right|].
  constructor; [by left|]. constructor; [by left | constructor].
Qed.

Lemma pctEncode_plain bs :
  Forall (fun b => b < 256) bs -> Forall plain (concat (List.map pctOctet bs)).
Proof.
  induction 1 as [|b bs Hb _ IH]; [constructor|].
  cbn [List.map concat]. apply Forall_app. split; [by apply pctOctet_plain | done].
Qed.

Lemma encode_plain s e :
  codeUnits s -> encodeURIComponent s = Ok e -> Forall plain e.
Proof.
  remember (length s) as n eqn:Hn. revert s e Hn.
  induction n as [n IH] using lt_wf_ind. intros s e -> Hs.
  destruct s as [|c t]; [intros [= <-]; constructor|].
  apply Forall_cons in Hs as [Hc Ht]. cbn [encodeURIComponent].
  assert (Hinv : forall (g : jsstring -> jsstring) r,
             rmap g r = Ok e -> exists e', r = Ok e' /\ e = g e').
  { intros g [a|err]; cbn; [intros [= <-]; eauto | done]. }
  destruct (uriUnescaped c) eqn:Hu.
  - intros (e' & He' & ->)%Hinv. constructor; [by left|].
    apply (IH (length t)) with t; [cbn; lia | done | done | done].
  - destruct (isLeadSurrogate c) eqn:Hl.
    + destruct t as [|d t']; [done|].
      apply Forall_cons in Ht as [Hd Ht'].
      destruct (isTrailSurrogate d) eqn:Htr; [|done].
      intros (e' & He' & ->)%Hinv. apply Forall_app. split.
      * destruct (pair_range c d Hl Htr) as [Hcr Hdr].
        apply pctEncode_plain, supplementary_octets.
        unfold surrogatePairToCodePoint. lia.
      * apply (IH (length t')) with t'; [cbn; lia | done | done | done].
    + destruct (isTrailSurrogate c) eqn:Htr; [done|].
      intros (e' & He' & ->)%Hinv. apply Forall_app. split.
      * by apply pctEncode_plain, bmp_octets.
      * apply (IH (length t)) with t; [cbn; lia | done | done | done].
Qed.

Lemma plain_not_special c : plain c -> c <> SEMI /\ c <> EQUALS /\ isWSP c = false.
Proof.
  intros [Hu | ->]; [|done].
  split; [intros ->; by vm_compute in Hu|].
  split; [intros ->; by vm_compute in Hu|].
  unfold isWSP. destruct (N.eqb_spec c 32) as [->|_]; [by vm_compute in Hu|].
  destruct (N.eqb_spec c 9) as [->|_]; [by vm_compute in Hu | done].
Qed.

Lemma dropWhile_id s :
  Forall (fun c => isWSP c = false) s -> dropWhile isWSP s = s.
Proof. destruct 1 as [|c s Hc _]; [done|]. cbn [dropWhile]. by rewrite Hc. Qed.

Lemma trimWSP_id s : Forall (fun c => isWSP c = false) s -> trimWSP s = s.
Proof.
  intros Hs. unfold trimWSP. rewrite (dropWhile_id s Hs), dropWhile_id.
  - apply rev_involutive.
  - by apply Forall_rev.
Qed.


(** X2.  setCookie throws URIError, and writes nothing, exactly when the
    value has an unpaired surrogate; otherwise it returns. *)
Theorem setCookie_throws_iff (name value : jsstring) (days : Z) (w : World) :
  (wellFormed value = false -> setCookie name value days w = Throw URIError w)
  /\ (wellFormed value = true ->
      exists w', setCookie name value days w = Return tt w').
Proof.
  unfold setCookie, bind, Date_getTime, gets. split; intros Hw.
  - destruct (encodeURIComponent value) as [e|[]] eqn:He; [|done].
    assert (wellFormed value = true) by (apply encode_wellFormed; eauto).
    congruence.
  - apply encode_wellFormed in Hw as [e ->]. cbn [lift ret].
    unfold set_document_cookie. destruct (parsePair _) as [[n v]|]; by eexists.
Qed.

(** X3.  For a name without '=', getCookie(name) returns null when no
    cookie is called name, and otherwise decodes the value of the first
    cookie called exactly name,
    whatever comes before it (such as a cookie whose name ends in name)
    and after it; it throws what decodeURIComponent throws on that value,
    and never changes the browser. *)
Theorem getCookie_first_exact_name (name : jsstring) (w : World) :
  wf_jar (cookies w) -> (EQUALS ∉ name) ->
  (name ∉ (cookies w).*1 -> getCookie name w = Return None w)
  /\ (forall pre raw post,
        cookies w = pre ++ (name, raw) :: post -> name ∉ pre.*1 ->
        getCookie name w = match decodeURIComponent raw with
                           | Ok v => Return (Some v) w
                           | Raise e => Throw e w
                           end).
Proof.
  intros Hwf Hname. rewrite getCookie_spec by done.
  assert (Hskip : forall pre rest,
             name ∉ pre.*1 -> jar_lookup name (pre ++ rest) = jar_lookup name rest).
  { induction pre as [|[n v] pre IH]; intros rest Hpre; [done|].
    cbn [fmap list_fmap fst] in Hpre. apply not_elem_of_cons in Hpre as [Hn Hpre].
    cbn [app jar_lookup]. rewrite bool_decide_eq_false_2 by congruence.
    by apply IH. }
  split.
  - intros Hno. rewrite <- (app_nil_r (cookies w)). by rewrite Hskip.
  - intros pre raw post -> Hpre. rewrite Hskip by done. cbn [jar_lookup].
    by rewrite bool_decide_eq_true_2.
Qed.

Lemma store_names n v jar :
  (store n v jar).*1 = if bool_decide (n ∈ jar.*1) then jar.*1 else jar.*1 ++ [n].
Proof.
  induction jar as [|[n' v'] jar IH]; cbn [store].
  - rewrite bool_decide_eq_false_2; [done | apply not_elem_of_nil].
  - rewrite fmap_cons. cbn [fst]. destruct (decide (n' = n)) as [->|Hn].
    + rewrite !bool_decide_eq_true_2; [done | apply list_elem_of_here | done].
    + rewrite (bool_decide_eq_false_2 (n' = n)) by done.
      rewrite fmap_cons, IH. cbn [fst].
      destruct (decide (n ∈ jar.*1)) as [Hin|Hin].
      * rewrite !bool_decide_eq_true_2; [done | by apply list_elem_of_further | done].
      * rewrite !bool_decide_eq_false_2; [done | | done].
        intros [?|?]%elem_of_cons; congruence.
Qed.

(** X4.  For a name that the browser stores as it is written (not
    empty, without ';' or '=', without white space around it) and an
    expiry that lies ahead, a setCookie(name, value, days) that returns
    leaves the value and the attributes of every other cookie, the
    session-local store and the class list as they are, and never adds a
    second cookie called name: an existing one keeps its place, a new one
    goes last. *)
Theorem setCookie_frame (name value : jsstring) (days : Z) (w w' : World) :
  codeUnits value -> cleanName name -> (0 < days)%Z ->
  setCookie name value days w = Return tt w' ->
  (forall other, other <> name ->
      jar_lookup other (cookies w') = jar_lookup other (cookies w)
      /\ attributes w' !! other = attributes w !! other)
  /\ (cookies w').*1 = (if bool_decide (name ∈ (cookies w).*1)
                       then (cookies w).*1 else (cookies w).*1 ++ [name])
  /\ localStorage w' = localStorage w
  /\ classList w' = classList w.
Proof.
  intros Hcu (Hne & Hsn & Hen & Htn) _ Hset.
  destruct (encodeURIComponent value) as [e|err] eqn:He;
    [|by unfold setCookie, bind, Date_getTime, gets in Hset; rewrite He in Hset].
  pose proof (encode_plain _ _ Hcu He) as Hplain.
  rewrite (setCookie_spec name value e) in Hset; try done.
  - injection Hset as <-.
    cbn [written cookies localStorage classList attributes with_cookies
           with_attributes].
    split; [|split; [apply store_names | done]].
    intros other Ho. split; [by apply jar_lookup_store_ne|].
    by apply lookup_insert_ne.
  - intros Hin. eapply Forall_forall in Hplain; [|done].
    by apply plain_not_special in Hplain as [? _].
  - apply trimWSP_id. eapply Forall_impl; [done|].
    intros c Hc. by apply plain_not_special in Hc as (_ & _ & ?).
Qed.

Lemma decode_plain_prefix pre x f :
  37 ∉ pre ->
  decode (length pre + f) (pre ++ x) = rmap (app pre) (decode f x).
Proof.
  induction pre as [|c pre IH]; intros Hpre.
  - cbn. by destruct (decode f x).
  - apply not_elem_of_cons in Hpre as [Hc Hpre]. cbn [length Nat.add app decode].
    destruct (N.eqb_spec c 37) as [->|_]; [done|]. rewrite IH by done.
    by destruct (decode f x).
Qed.

(** X5.  A cookie value with a '%' that is not followed by two
    hexadecimal digits makes getCookie throw URIError. *)
Theorem getCookie_bare_percent_throws (name pre tail : jsstring) (w : World) :
  wf_jar (cookies w) -> (EQUALS ∉ name) ->
  jar_lookup name (cookies w) = Some (pre ++ 37 :: tail) ->
  (37 ∉ pre) -> bareEscape tail ->
  getCookie name w = Throw URIError w.
Proof.
  intros Hwf Hname Hc Hpre Hbare. rewrite getCookie_spec, Hc by done.
  unfold decodeURIComponent. rewrite length_app.
  rewrite decode_plain_prefix by done. cbn [length decode].
  change (37 =? 37) with true. cbv iota.
  destruct tail as [|h [|l tail]]; [done | done |].
  cbn in Hbare. by rewrite Hbare.
Qed.

(** X6.  A page load throws exactly when the theme cookie is not valid
    percent-encoding, whatever the session-local store holds; the error
    is URIError and nothing has been written. *)
Theorem mount_throws_iff (w : World) :
  wf_jar (cookies w) ->
  ((exists e w', mount w = Throw e w')
   <-> exists raw e, jar_lookup THEME (cookies w) = Some raw
                     /\ decodeURIComponent raw = Raise e)
  /\ (forall e w', mount w = Throw e w' -> e = URIError /\ w' = w).
Proof.
  intros Hwf.
  assert (Hresolve : forall ct, exists q w1, resolve ct w = Return q w1).
  { intros ct. unfold resolve.
    destruct (strictEq ct DARK || strictEq ct LIGHT); by do 2 eexists. }
  assert (Hok : forall q w1, init_effect w = Return q w1 ->
                             exists a w', mount w = Return a w').
  { intros q w1 Hinit. destruct (mount_spec _ _ _ Hinit) as [_ ->].
    rewrite flush_spec. cbv zeta. case_bool_decide; by do 2 eexists. }
  pose proof (init_effect_spec w Hwf) as Hinit.
  destruct (jar_lookup THEME (cookies w)) as [raw|] eqn:Hc.
  - destruct (decodeURIComponent raw) as [v|e] eqn:Hd.
    + destruct (Hresolve (if truthy (Some v) then Some v
                          else localStorage w !! THEME)) as (q & w1 & Hr).
      rewrite Hr in Hinit. destruct (Hok _ _ Hinit) as (a & w' & Hm).
      rewrite Hm. split; [|done]. split; [by intros (? & ? & ?)|].
      intros (raw' & e & [= <-] & He). congruence.
    + rewrite (undecodable_cookie_throws w raw e) by done.
      split; [split; eauto|]. intros e' w' Heq. destruct e'.
      split; [done | congruence].
  - destruct (Hresolve (localStorage w !! THEME)) as (q & w1 & Hr).
    rewrite Hr in Hinit. destruct (Hok _ _ Hinit) as (a & w' & Hm).
    rewrite Hm. split; [|done]. split; [by intros (? & ? & ?)|].
    by intros (raw' & e & ? & _).
Qed.

(** X7.  Running the apply step again in the same state changes nothing
    in the browser. *)
Theorem apply_step_idempotent (s : ThemeState) (w : World) :
  exists w1, apply_effect s w = Return tt w1
             /\ apply_effect s w1 = Return tt w1.
Proof.
  exists (applied s w). rewrite !apply_effect_applied.
  by rewrite applied_idempotent.
Qed.

Lemma untouched_refl w : untouched w w.
Proof. by repeat split. Qed.

Lemma untouched_trans w1 w2 w3 :
  untouched w1 w2 -> untouched w2 w3 -> untouched w1 w3.
Proof.
  intros (Hc & Hl & Hk & Hn) (Hc' & Hl' & Hk' & Hn'). repeat split.
  - intros n Hne. by rewrite Hc', Hc.
  - intros k Hne. by rewrite Hl', Hl.
  - intros Hin. by apply Hk, Hk'.
  - intros Hin. by apply Hk', Hk.
  - by rewrite Hn', Hn.
Qed.

Lemma untouched_applied s w : untouched w (applied s w).
Proof.
  repeat split; cbn [applied cookies localStorage classList now].
  - intros n Hn. by apply jar_lookup_store_ne.
  - intros k Hk. destruct (hasUserPref s).
    + by apply lookup_insert_ne.
    + by apply lookup_delete_ne.
  - destruct (isDark s).
    + rewrite elem_of_union, elem_of_singleton. by intros [?|?].
    + rewrite elem_of_difference. by intros [? _].
  - destruct (isDark s).
    + rewrite elem_of_union. by right.
    + rewrite elem_of_difference, elem_of_singleton. done.
Qed.

Lemma untouched_with_prefersDark b w : untouched w (with_prefersDark b w).
Proof. by repeat split. Qed.

Lemma dispatch_untouched e a w :
  exists a' w', dispatch e a w = Return a' w' /\ untouched w w'.
Proof.
  destruct e as [|b]; unfold dispatch.
  - rewrite flush_spec. cbv zeta. case_bool_decide; do 2 eexists;
      (split; [done|]); auto using untouched_refl, untouched_applied.
  - unfold bind, modify. destruct (listener a) as [captured|].
    + rewrite flush_spec. cbv zeta. case_bool_decide; do 2 eexists;
        (split; [done|]); [apply untouched_with_prefersDark|].
      eapply untouched_trans;
        [apply untouched_with_prefersDark | apply untouched_applied].
    + do 2 eexists. split; [done|]. apply untouched_with_prefersDark.
Qed.

(** X8.  Clicks and OS changes never throw, in whatever state the
    component and the stores are, and neither they nor a page load ever
    touch a cookie other than theme, a key of the session-local store
    other than theme, a class other than dark, or the clock. *)
Theorem session_frame (es : list event) (a : App) (w : World) :
  (exists a' w', run es a w = Return a' w' /\ untouched w w')
  /\ (forall a' w', wf_jar (cookies w) -> mount w = Return a' w' -> untouched w w').
Proof.
  split.
  - revert a w. induction es as [|e es IH]; intros a w.
    + do 2 eexists. split; [done | apply untouched_refl].
    + destruct (dispatch_untouched e a w) as (a1 & w1 & He & Hu1).
      destruct (IH a1 w1) as (a2 & w2 & Hr & Hu2).
      exists a2, w2. cbn [run]. unfold bind. rewrite He.
      split; [done|]. by eapply untouched_trans.
  - intros a' w' Hwf Hm.
    destruct (init_effect w) as [q w1|e w1] eqn:Hinit;
      [|by unfold mount, first_commit, bind in Hm; rewrite Hinit in Hm].
    assert (Hu1 : untouched w w1).
    { rewrite init_effect_spec in Hinit by done.
      assert (Hres : forall ct, resolve ct w = Return q w1 -> untouched w w1).
      { intros ct. unfold resolve.
        destruct (strictEq ct DARK || strictEq ct LIGHT);
          intros Heq; injection Heq as <- <-; [apply untouched_refl|].
        split; [intros n Hn; by apply jar_lookup_store_ne | by repeat split]. }
      destruct (jar_lookup THEME (cookies w)); [|by eapply Hres].
      destruct (decodeURIComponent _); [by eapply Hres | done]. }
    destruct (mount_spec _ _ _ Hinit) as [_ Hmount].
    rewrite Hmount, flush_spec in Hm. cbv zeta in Hm.
    case_bool_decide; injection Hm as <- <-.
    + eapply untouched_trans; [done | apply untouched_applied].
    + eapply untouched_trans; [done|].
      eapply untouched_trans; apply untouched_applied.
Qed.

(** X9.  The first commit of a page load leaves the cookie at system and
    the session-local store without theme, whatever preference was
    stored before: until the next render only the queued setter calls
    carry a stored preference, and a page load started from the browser
    as the first commit leaves it follows the OS signal. *)
Theorem first_commit_erases_preference (w : World) (a : App)
    (q : list action) (w1 : World) :
  wf_jar (cookies w) -> first_commit w = Return (a, q) w1 ->
  getCookie THEME w1 = Return (Some SYSTEM) w1
  /\ localStorage w1 !! THEME = None
  /\ initializes w1 (prefersDark w) false true.
Proof.
  intros Hwf Hfc.
  destruct (init_effect w) as [q' w0|e w0] eqn:Hinit;
    [|by unfold first_commit, bind in Hfc; rewrite Hinit in Hfc].
  destruct (init_effect_cases _ _ _ Hwf Hinit) as (d & h & _ & _ & Hwf0 & Hos).
  destruct (mount_spec _ _ _ Hinit) as [Hfc' _]. rewrite Hfc' in Hfc.
  injection Hfc as <- <- <-.
  assert (Hwf1 : wf_jar (cookies (applied initial_state w0)))
    by by apply applied_wf.
  assert (Hc : jar_lookup THEME (cookies (applied initial_state w0))
               = Some (str system)) by apply applied_cookie.
  split; [by apply (getCookie_theme _ system)|].
  split; [apply applied_localStorage|].
  eapply resolve_initializes; [by apply init_cookie_theme|].
  by rewrite <- Hos.
Qed.

(** X10.  The escaping in getCookie makes every name stand for itself:
    read as a pattern, the escaped name consists of pattern characters
    and identity escapes only, and matches the name and nothing else. *)
Theorem escapeRegExp_literal (name : jsstring) :
  readLiteral (escapeRegExp name) = Some name.
Proof.
  induction name as [|c name IH]; [done|].
  cbn [escapeRegExp flat_map]. fold (escapeRegExp name).
  case_bool_decide as Hc.
  - cbn [app readLiteral]. change (92 =? 92) with true. cbv iota.
    assert ((syntaxCharacter c || (c =? 47)) = true) as ->.
    { unfold regexSpecial in Hc.
      repeat (apply elem_of_cons in Hc as [->|Hc]; [done|]).
      by apply elem_of_nil in Hc. }
    by rewrite IH.
  - cbn [app readLiteral].
    assert ((c =? 92) = false) as ->.
    { apply N.eqb_neq. intros ->. apply Hc. by_computation. }
    assert (syntaxCharacter c = false) as ->.
    { apply bool_decide_eq_false. intros Hs. apply Hc.
      repeat (apply elem_of_cons in Hs as [->|Hs]; [by_computation|]).
      by apply elem_of_nil in Hs. }
    by rewrite IH.
Qed.

(** X11.  Reloading any session: a page load on a browser with the two
    stores of a reachable session never throws; it restores the state
    when the user has a preference and follows the current OS signal
    otherwise. *)
Theorem reload_any_session (a : App) (w wr : World) :
  Reachable a w ->
  cookies wr = cookies w -> localStorage wr = localStorage w ->
  exists a' w',
    mount wr = Return a' w'
    /\ state a' = (if hasUserPref (state a) then state a
                   else mkState (prefersDark wr) false).
Proof.
  intros Hr Hc Hl. destruct (Reachable_settled _ _ Hr) as (Hwf & _ & Hck & _).
  rewrite <- Hc in Hwf, Hck.
  pose proof (init_cookie_theme wr _ Hwf Hck) as Hinit.
  destruct a as [[d h] l]. cbn [state hasUserPref] in *.
  unfold themeValue in Hinit. cbn [hasUserPref isDark] in Hinit.
  destruct h.
  - assert (Hi : initializes wr d true false).
    { eapply resolve_initializes; [done|]. by destruct d. }
    destruct Hi as (_ & a' & w' & Hm & Hs). by exists a', w'.
  - assert (Hi : initializes wr (prefersDark wr) false true)
      by by eapply resolve_initializes.
    destruct Hi as (_ & a' & w' & Hm & Hs). by exists a', w'.
Qed.

(** ** Runs of the further properties on concrete browsers *)

Lemma cleanName_lang : cleanName (lit "lang").
Proof. split; [done|]. split; [by_computation|]. split; [by_computation | done]. Defined.


(** [getCookie_first_exact_name]: the cookie xtheme is not theme. *)
Lemma getCookie_first_exact_name_witness :
  wf_jar (cookies alike_world) /\ (EQUALS ∉ THEME)
  /\ getCookie THEME alike_world = Return (Some (str light)) alike_world.
Proof.
  assert (Hwf : wf_jar (cookies alike_world)) by by_computation.
  assert (Hn : EQUALS ∉ THEME) by by_computation.
  split; [exact Hwf|]. split; [exact Hn|].
  refine (proj2 (getCookie_first_exact_name THEME alike_world Hwf Hn)
            [(lit "xtheme", lit "q")] (lit "li%67ht") [(lit "b", lit "1")]
            eq_refl _).
  by_computation.
Defined.

(** [setCookie_frame]: writing lang keeps the theme cookie. *)
Lemma setCookie_frame_witness :
  codeUnits euro_value /\ cleanName (lit "lang") /\ (0 < 30)%Z
  /\ setCookie (lit "lang") euro_value 30 stored_world
     = Return tt (written (lit "lang") euro_encoded 30 stored_world)
  /\ jar_lookup THEME (cookies (written (lit "lang") euro_encoded 30
                                  stored_world))
     = jar_lookup THEME (cookies stored_world).
Proof.
  assert (Hcu : codeUnits euro_value) by by_computation.
  assert (Hd : (0 < 30)%Z) by lia.
  assert (Hs : setCookie (lit "lang") euro_value 30 stored_world
               = Return tt (written (lit "lang") euro_encoded 30 stored_world))
    by by vm_compute.
  assert (Hne : THEME <> lit "lang") by by_computation.
  split; [exact Hcu|]. split; [exact cleanName_lang|]. split; [exact Hd|].
  split; [exact Hs|].
  exact (proj1 (proj1 (setCookie_frame (lit "lang") euro_value 30 stored_world
                         (written (lit "lang") euro_encoded 30 stored_world)
                         Hcu cleanName_lang Hd Hs) THEME Hne)).
Defined.

(** [getCookie_bare_percent_throws] on the cookie theme=50%. *)
Lemma getCookie_bare_percent_throws_witness :
  wf_jar (cookies percent_world) /\ (EQUALS ∉ THEME)
  /\ getCookie THEME percent_world = Throw URIError percent_world.
Proof.
  assert (Hwf : wf_jar (cookies percent_world)) by by_computation.
  assert (Hn : EQUALS ∉ THEME) by by_computation.
  split; [exact Hwf|]. split; [exact Hn|].
  refine (getCookie_bare_percent_throws THEME (lit "50") [] percent_world
            Hwf Hn eq_refl _ I).
  by_computation.
Defined.

(** [mount_throws_iff] on the cookie theme=50%: the page load throws. *)
Lemma mount_throws_iff_witness :
  wf_jar (cookies percent_world)
  /\ exists e w', mount percent_world = Throw e w'.
Proof.
  assert (Hwf : wf_jar (cookies percent_world)) by by_computation.
  split; [exact Hwf|].
  refine (proj2 (proj1 (mount_throws_iff percent_world Hwf)) _).
  exists (lit "50%"), URIError. split; reflexivity.
Defined.

(** [first_commit_erases_preference] on a browser that had stored dark. *)
Lemma first_commit_erases_preference_witness :
  wf_jar (cookies stored_world)
  /\ jar_lookup THEME (cookies stored_world) = Some (str dark)
  /\ first_commit stored_world
     = Return (mkApp initial_state (Some false),
               [SetIsDark true; SetHasUserPref true]) stored_first_commit
  /\ getCookie THEME stored_first_commit
     = Return (Some SYSTEM) stored_first_commit
  /\ localStorage stored_first_commit !! THEME = None.
Proof.
  assert (Hwf : wf_jar (cookies stored_world)) by by_computation.
  assert (Hfc : first_commit stored_world
                = Return (mkApp initial_state (Some false),
                          [SetIsDark true; SetHasUserPref true])
                         stored_first_commit) by by vm_compute.
  split; [exact Hwf|]. split; [reflexivity|]. split; [exact Hfc|].
  pose proof (first_commit_erases_preference stored_world _ _ _ Hwf Hfc)
    as (Hc & Hl & _).
  split; [exact Hc | exact Hl].
Defined.

(** [reload_any_session]: an adaptive page revisited under a light OS. *)
Lemma reload_any_session_witness :
  Reachable (fresh_app true) (fresh_loaded true)
  /\ exists a' w',
       mount revisit_world = Return a' w' /\ state a' = mkState false false.
Proof.
  split; [exact (fresh_reachable true)|].
  exact (reload_any_session (fresh_app true) (fresh_loaded true) revisit_world
           (fresh_reachable true) eq_refl eq_refl).
Defined.
